(** * DeFi Dash SDK: a shallow embedding of the amount, metrics and facade code

    The development follows the TypeScript sources of the SDK:

    - [lib/utils/format.ts]   ([formatUnits], [parseUnits])
    - [lib/utils/coin.ts]     ([normalizeCoinType])
    - [lib/suilend/suilend.ts] ([calculateCompoundedBorrow])
    - [lib/suilend/calculators.ts] ([calculatePortfolioMetrics],
      [calculateLiquidationPrice])
    - [lib/suilend/const.ts]  ([SUILEND_RESERVES], [COIN_TYPES],
      [getReserveBySymbol], [getReserveByCoinType])
    - [protocols/suilend.ts]  ([getMaxWithdrawableAmount])
    - [strategies/deleverage.ts] ([calculateDeleverageEstimate],
      [buildDeleverageTransaction])
    - [sdk.ts]                ([DefiDashSDK]: [initialize],
      [resolveCoinType], [leverage], [deleverage],
      [getAggregatedPortfolio])

    JavaScript strings are lists of code units ([list ascii]), [bigint] is
    [Z], [BigNumber] values are exact rationals extended with NaN and the
    two infinities, and asynchronous functions are computations in an
    outcome (resolve / reject) monad. *)

From Stdlib Require Import Ascii String.
From Stdlib Require Import ZArith NArith QArith Qcanon Qround Qabs.
From Stdlib Require Import Bool Lia Arith DecimalN DecimalFacts List.
Import ListNotations.

Open Scope nat_scope.

(* ===================================================================== *)
(** ** JavaScript string primitives *)
(* ===================================================================== *)

Module JS.

(** A JavaScript string, as the sequence of its code units. *)
Definition jstring := list ascii.

(** String literals of the source. *)
Definition js (s : string) : jstring := list_ascii_of_string s.

(** [s.startsWith(p)] (also the test "[p] occurs at this position"). *)
Fixpoint starts_with (p s : jstring) : bool :=
  match p, s with
  | [], _ => true
  | _ :: _, [] => false
  | a :: p', b :: s' => Ascii.eqb a b && starts_with p' s'
  end.

(** [s.includes(p)]. *)
Fixpoint includes (p s : jstring) : bool :=
  match s with
  | [] => starts_with p []
  | _ :: t => starts_with p s || includes p t
  end.

(** [s.padStart(n, c)] and [s.padEnd(n, c)] for a one-unit filler [c]. *)
Definition padStart (n : nat) (c : ascii) (s : jstring) : jstring :=
  repeat c (n - length s) ++ s.

Definition padEnd (n : nat) (c : ascii) (s : jstring) : jstring :=
  s ++ repeat c (n - length s).

(** [s.slice(0, n)] and [s.slice(n)] for [0 <= n]. *)
Definition slice_to (n : nat) (s : jstring) : jstring := firstn n s.
Definition slice_from (n : nat) (s : jstring) : jstring := skipn n s.

Definition cons_head (c : ascii) (ps : list jstring) : list jstring :=
  match ps with
  | [] => [[c]]
  | p :: r => (c :: p) :: r
  end.

(** [s.split(sep)] for a non-empty separator: the separators are found
    left to right and do not overlap.  [skip] counts the code units of a
    separator that are still to be dropped. *)
Fixpoint split_from (sep : jstring) (skip : nat) (s : jstring) : list jstring :=
  match s with
  | [] => [[]]
  | c :: t =>
      match skip with
      | S k => split_from sep k t
      | O =>
          if starts_with sep s
          then [] :: split_from sep (length sep - 1) t
          else cons_head c (split_from sep 0 t)
      end
  end.

Definition split (sep s : jstring) : list jstring := split_from sep 0 s.

(** [s.replace(pat, rep)] with a string pattern: only the first
    occurrence is replaced. *)
Fixpoint replace (pat rep s : jstring) : jstring :=
  match s with
  | [] => match pat with [] => rep | _ => [] end
  | c :: t =>
      if starts_with pat s then rep ++ skipn (length pat) s
      else c :: replace pat rep t
  end.

(** The regular expression [/\.?0+$/]: an optional dot followed by one or
    more zeros that reach the end of the string. *)
Definition zeros1 (s : jstring) : bool :=
  match s with
  | [] => false
  | _ => forallb (Ascii.eqb "0"%char) s
  end.

Definition dot_zeros_at_end (s : jstring) : bool :=
  zeros1 s || match s with
              | c :: t => Ascii.eqb c "."%char && zeros1 t
              | [] => false
              end.

(** [s.replace(/\.?0+$/, '')]: the leftmost position where the expression
    matches is found, and everything from there on is dropped. *)
Fixpoint strip_dot_zeros (s : jstring) : jstring :=
  match s with
  | [] => []
  | c :: t => if dot_zeros_at_end s then [] else c :: strip_dot_zeros t
  end.

(** [a || b] on strings: the empty string is falsy. *)
Definition or_else (a b : jstring) : jstring :=
  match a with [] => b | _ => a end.

End JS.

Import JS.

(* ===================================================================== *)
(** ** lib/utils/coin.ts *)
(* ===================================================================== *)

(** [normalizeCoinType]: pads the package address to 64 characters and
    ensures the [0x] prefix; anything that does not split into three
    parts is returned as it is. *)
Definition normalizeCoinType (coinType : jstring) : jstring :=
  let parts := split (js "::") coinType in
  if negb (Nat.eqb (length parts) 3) then coinType
  else
    let pkg := replace (js "0x") [] (nth 0 parts []) in
    let pkg := padStart 64 "0"%char pkg in
    js "0x" ++ pkg ++ js "::" ++ nth 1 parts [] ++ js "::" ++ nth 2 parts [].

(* ===================================================================== *)
(** ** bigint: printing and parsing *)
(* ===================================================================== *)

Module BigInt.

Fixpoint digits_of_uint (d : Decimal.uint) : jstring :=
  match d with
  | Decimal.Nil => []
  | Decimal.D0 d => "0"%char :: digits_of_uint d
  | Decimal.D1 d => "1"%char :: digits_of_uint d
  | Decimal.D2 d => "2"%char :: digits_of_uint d
  | Decimal.D3 d => "3"%char :: digits_of_uint d
  | Decimal.D4 d => "4"%char :: digits_of_uint d
  | Decimal.D5 d => "5"%char :: digits_of_uint d
  | Decimal.D6 d => "6"%char :: digits_of_uint d
  | Decimal.D7 d => "7"%char :: digits_of_uint d
  | Decimal.D8 d => "8"%char :: digits_of_uint d
  | Decimal.D9 d => "9"%char :: digits_of_uint d
  end.

Definition digit_cons (c : ascii) (d : Decimal.uint) : option Decimal.uint :=
  if Ascii.eqb c "0" then Some (Decimal.D0 d)
  else if Ascii.eqb c "1" then Some (Decimal.D1 d)
  else if Ascii.eqb c "2" then Some (Decimal.D2 d)
  else if Ascii.eqb c "3" then Some (Decimal.D3 d)
  else if Ascii.eqb c "4" then Some (Decimal.D4 d)
  else if Ascii.eqb c "5" then Some (Decimal.D5 d)
  else if Ascii.eqb c "6" then Some (Decimal.D6 d)
  else if Ascii.eqb c "7" then Some (Decimal.D7 d)
  else if Ascii.eqb c "8" then Some (Decimal.D8 d)
  else if Ascii.eqb c "9" then Some (Decimal.D9 d)
  else None.

Fixpoint uint_of_digits (s : jstring) : option Decimal.uint :=
  match s with
  | [] => Some Decimal.Nil
  | c :: t =>
      match uint_of_digits t with
      | Some d => digit_cons c d
      | None => None
      end
  end.

(** [n.toString()] for a bigint [n]. *)
Definition toString (n : Z) : jstring :=
  match n with
  | Zneg p => "-"%char :: digits_of_uint (Pos.to_uint p)
  | _ => digits_of_uint (N.to_uint (Z.to_N n))
  end.

(** White space and line terminators among the code units below 256:
    TAB, LF, VT, FF, CR, SP and NBSP. *)
Definition is_white_space (c : ascii) : bool :=
  existsb (Nat.eqb (nat_of_ascii c)) [9; 10; 11; 12; 13; 32; 160].

Fixpoint trimStart (s : jstring) : jstring :=
  match s with
  | [] => []
  | c :: t => if is_white_space c then trimStart t else s
  end.

Definition trim (s : jstring) : jstring :=
  rev (trimStart (rev (trimStart s))).

(** The value of a digit of a binary, octal or hexadecimal literal. *)
Definition radix_digit (c : ascii) : option Z :=
  let n := nat_of_ascii c in
  if Nat.leb 48 n && Nat.leb n 57 then Some (Z.of_nat (n - 48))
  else if Nat.leb 97 n && Nat.leb n 102 then Some (Z.of_nat (n - 87))
  else if Nat.leb 65 n && Nat.leb n 70 then Some (Z.of_nat (n - 55))
  else None.

Fixpoint radix_value (base acc : Z) (s : jstring) : option Z :=
  match s with
  | [] => Some acc
  | c :: t =>
      match radix_digit c with
      | Some d =>
          if Z.ltb d base then radix_value base (acc * base + d) t else None
      | None => None
      end
  end.

(** The digits after [0x], [0o] or [0b]: at least one. *)
Definition non_decimal (base : Z) (digits : jstring) : option Z :=
  match digits with
  | [] => None
  | _ => radix_value base 0 digits
  end.

(** [BigInt(s)] for a string [s], after StringToBigInt: white space
    around the literal is dropped; nothing is [0n]; a run of decimal
    digits, which alone may carry a sign, or a [0x], [0o] or [0b] literal
    is its value; [None] stands for the SyntaxError. *)
Definition of_string (s : jstring) : option Z :=
  match trim s with
  | [] => Some 0%Z
  | c :: t =>
      if Ascii.eqb c "-" then
        match t with
        | [] => None
        | _ => option_map (fun d => (- Z.of_N (N.of_uint d))%Z) (uint_of_digits t)
        end
      else if Ascii.eqb c "+" then
        match t with
        | [] => None
        | _ => option_map (fun d => Z.of_N (N.of_uint d)) (uint_of_digits t)
        end
      else
        let decimal :=
          option_map (fun d => Z.of_N (N.of_uint d)) (uint_of_digits (c :: t)) in
        if Ascii.eqb c "0" then
          match t with
          | [] => decimal
          | p :: digits =>
              if Ascii.eqb p "x" || Ascii.eqb p "X" then non_decimal 16 digits
              else if Ascii.eqb p "o" || Ascii.eqb p "O" then non_decimal 8 digits
              else if Ascii.eqb p "b" || Ascii.eqb p "B" then non_decimal 2 digits
              else decimal
          end
        else decimal
  end.

End BigInt.

(* ===================================================================== *)
(** ** lib/utils/format.ts *)
(* ===================================================================== *)

(** [formatUnits(amount, decimals)] for a bigint [amount]. *)
Definition formatUnits (amount : Z) (decimals : nat) : jstring :=
  let s := BigInt.toString amount in
  if Nat.eqb decimals 0 then s
  else
    let pad := padStart (decimals + 1) "0"%char s in
    let transition := length pad - decimals in
    or_else
      (strip_dot_zeros
         (slice_to transition pad ++ js "." ++ slice_from transition pad))
      (js "0").

(** [integer + paddedFraction], the string that [parseUnits] hands to
    [BigInt]. *)
Definition parseUnits_literal (amount : jstring) (decimals : nat) : jstring :=
  let parts := split (js ".") amount in
  let integer := nth 0 parts [] in
  let fraction := nth 1 parts [] in
  let paddedFraction := slice_to decimals (padEnd decimals "0"%char fraction) in
  integer ++ paddedFraction.

(** [parseUnits(amount, decimals)]; [None] is the SyntaxError of
    [BigInt]. *)
Definition parseUnits (amount : jstring) (decimals : nat) : option Z :=
  BigInt.of_string (parseUnits_literal amount decimals).

(* ===================================================================== *)
(** ** bignumber.js *)
(* ===================================================================== *)

(** A [BigNumber] is NaN, plus or minus Infinity, or a finite decimal,
    kept here as the exact rational it denotes.  Addition, subtraction and
    multiplication are exact; division rounds its quotient to
    [DECIMAL_PLACES] = 20 places with [ROUNDING_MODE] = [ROUND_HALF_UP]
    (the library defaults, which the SDK never changes).  The sign of a
    zero is not kept: every zero is [+0]. *)
Module BN.

Inductive t : Type :=
| NaN
| Inf (negative : bool)
| Fin (q : Qc).

Definition zero : t := Fin (Q2Qc 0).

(** [new BigNumber(Infinity)] *)
Definition infinity : t := Inf false.

(** [new BigNumber(n)] for a bigint or an integer-valued number [n]. *)
Definition of_Z (n : Z) : t := Fin (Q2Qc (inject_Z n)).

Definition DECIMAL_PLACES : Z := 20.

Definition is_finite (a : t) : bool :=
  match a with Fin _ => true | _ => false end.

Definition negb_zero (q : Qc) : bool :=
  match Qccompare q (Q2Qc 0) with Lt => true | _ => false end.

Definition is_zero (q : Qc) : bool :=
  match Qccompare q (Q2Qc 0) with Eq => true | _ => false end.

(** Nearest integer, ties away from zero. *)
Definition round_half_up (q : Q) : Z :=
  match Qcompare q 0 with
  | Lt => (- Qfloor (Qplus (Qopp q) (1 # 2)))%Z
  | _ => Qfloor (Qplus q (1 # 2))
  end.

(** The quotient [a / b] rounded to [DECIMAL_PLACES]. *)
Definition div_dp (a b : Qc) : Qc :=
  let scale := inject_Z (10 ^ DECIMAL_PLACES) in
  Q2Qc (Qdiv (inject_Z (round_half_up (Qmult (Qdiv a b) scale))) scale).

Definition eq (a b : t) : bool :=
  match a, b with
  | Fin x, Fin y => match Qccompare x y with Eq => true | _ => false end
  | Inf s, Inf s' => Bool.eqb s s'
  | _, _ => false
  end.

Definition lte (a b : t) : bool :=
  match a, b with
  | NaN, _ | _, NaN => false
  | Fin x, Fin y => match Qccompare x y with Gt => false | _ => true end
  | Inf true, _ => true
  | _, Inf false => true
  | _, _ => false
  end.

Definition gt (a b : t) : bool :=
  match a, b with
  | NaN, _ | _, NaN => false
  | Fin x, Fin y => match Qccompare x y with Gt => true | _ => false end
  | Inf s, Inf s' => negb s && s'
  | Inf s, Fin _ => negb s
  | Fin _, Inf s' => s'
  end.

Definition negated (a : t) : t :=
  match a with
  | NaN => NaN
  | Inf s => Inf (negb s)
  | Fin x => Fin (Qcopp x)
  end.

Definition plus (a b : t) : t :=
  match a, b with
  | NaN, _ | _, NaN => NaN
  | Fin x, Fin y => Fin (Qcplus x y)
  | Inf s, Inf s' => if Bool.eqb s s' then Inf s else NaN
  | Inf s, Fin _ => Inf s
  | Fin _, Inf s' => Inf s'
  end.

Definition minus (a b : t) : t := plus a (negated b).

Definition times (a b : t) : t :=
  match a, b with
  | NaN, _ | _, NaN => NaN
  | Fin x, Fin y => Fin (Qcmult x y)
  | Inf s, Inf s' => Inf (xorb s s')
  | Inf s, Fin y => if is_zero y then NaN else Inf (xorb s (negb_zero y))
  | Fin x, Inf s' => if is_zero x then NaN else Inf (xorb (negb_zero x) s')
  end.

Definition div (a b : t) : t :=
  match a, b with
  | NaN, _ | _, NaN => NaN
  | Inf _, Inf _ => NaN
  | Inf s, Fin y => Inf (xorb s (negb_zero y))
  | Fin _, Inf _ => zero
  | Fin x, Fin y =>
      if is_zero y then (if is_zero x then NaN else Inf (negb_zero x))
      else Fin (div_dp x y)
  end.

End BN.

(** [pct / 100] for an integer percentage held in a JavaScript number,
    as the [BigNumber] that [times] reads from it: the double nearest to
    [pct / 100] prints as that two-place decimal. *)
Definition pct_ratio (pct : Z) : BN.t :=
  BN.Fin (Q2Qc (Qmake pct 100)).

(** Strict equality [===] of two strings. *)
Definition jstring_eqb (a b : jstring) : bool :=
  if list_eq_dec Ascii.ascii_dec a b then true else false.

(* ===================================================================== *)
(** ** lib/suilend/suilend.ts *)
(* ===================================================================== *)

(** [calculateCompoundedBorrow]: RawAmount * (CurrentRate / InitialRate). *)
Definition calculateCompoundedBorrow
    (rawBorrowAmount cumulativeBorrowRateInit cumulativeBorrowRateCurrent : BN.t)
    : BN.t :=
  let rawInfo := rawBorrowAmount in
  let initRate := cumulativeBorrowRateInit in
  let currentRate := cumulativeBorrowRateCurrent in
  if BN.eq initRate BN.zero then rawInfo
  else
    let compoundingFactor := BN.div currentRate initRate in
    BN.times rawInfo compoundingFactor.

(* ===================================================================== *)
(** ** lib/suilend/calculators.ts *)
(* ===================================================================== *)

(** The fields of a parsed reserve and of a parsed obligation that the
    calculators read. *)
Record ReserveConfig := {
  openLtvPct : Z;
  closeLtvPct : Z
}.

Record ParsedDeposit := {
  dep_coinType : jstring;
  depositedAmount : BN.t;
  depositedAmountUsd : BN.t;
  dep_config : ReserveConfig
}.

Record ParsedObligation := {
  netValueUsd : BN.t;
  obl_depositedAmountUsd : BN.t;
  borrowedAmountUsd : BN.t;
  borrowLimitUsd : BN.t;
  unhealthyBorrowValueUsd : BN.t;
  weightedBorrowsUsd : BN.t;
  deposits : list ParsedDeposit
}.

(** [PortfolioMetrics] without its two yield fields ([netApy],
    [totalAnnualNetEarnings]), which are computed from the reward streams
    and the clock and do not feed the other fields. *)
Record PortfolioMetrics := {
  netValue : BN.t;
  totalSupply : BN.t;
  totalBorrow : BN.t;
  borrowLimit : BN.t;
  liquidationThreshold : BN.t;
  healthFactor : BN.t;
  weightedOpenLtv : BN.t
}.

Definition calculatePortfolioMetrics (parsedObligation : ParsedObligation)
    : PortfolioMetrics :=
  let netValue := netValueUsd parsedObligation in
  let totalSupply := obl_depositedAmountUsd parsedObligation in
  let totalBorrow := borrowedAmountUsd parsedObligation in
  let borrowLimit := borrowLimitUsd parsedObligation in
  let liquidationThreshold := unhealthyBorrowValueUsd parsedObligation in
  let weightedBorrows := weightedBorrowsUsd parsedObligation in
  let healthFactor :=
    if BN.eq weightedBorrows BN.zero then BN.infinity
    else BN.div liquidationThreshold weightedBorrows in
  let weightedOpenLtv :=
    if BN.gt totalSupply BN.zero then
      fold_left
        (fun acc d =>
           let weight := BN.div (depositedAmountUsd d) totalSupply in
           BN.plus acc (BN.times weight (pct_ratio (openLtvPct (dep_config d)))))
        (deposits parsedObligation) BN.zero
    else BN.zero in
  {| netValue := netValue;
     totalSupply := totalSupply;
     totalBorrow := totalBorrow;
     borrowLimit := borrowLimit;
     liquidationThreshold := liquidationThreshold;
     healthFactor := healthFactor;
     weightedOpenLtv := weightedOpenLtv |}.

(** The sum the [forEach] of [calculateLiquidationPrice] builds: the
    close-LTV-weighted value of the deposits other than [coinType]. *)
Definition otherCollateralWeighted (coinType : jstring)
    (ds : list ParsedDeposit) : BN.t :=
  fold_left
    (fun acc d =>
       if jstring_eqb (dep_coinType d) coinType then acc
       else
         let ltv := pct_ratio (closeLtvPct (dep_config d)) in
         let value := depositedAmountUsd d in
         BN.plus acc (BN.times value ltv))
    ds BN.zero.

(** [calculateLiquidationPrice]; [None] is the [null] of the source.
    [liquidationThreshold] is the number argument as [times] reads it. *)
Definition calculateLiquidationPrice (coinType : jstring) (amount : BN.t)
    (liquidationThreshold : BN.t) (parsedObligation : ParsedObligation)
    : option BN.t :=
  let totalWeightedBorrows := weightedBorrowsUsd parsedObligation in
  let other := otherCollateralWeighted coinType (deposits parsedObligation) in
  let numerator := BN.minus totalWeightedBorrows other in
  if BN.lte numerator BN.zero then Some BN.zero
  else
    let denominator := BN.times amount liquidationThreshold in
    if BN.eq denominator BN.zero then None
    else Some (BN.div numerator denominator).

(* ===================================================================== *)
(** ** Asynchronous functions *)
(* ===================================================================== *)

(** What is thrown: an [Error] with its message. *)
Record JsError := { message : jstring }.

(** How the promise of an [async] function settles. *)
Inductive outcome (A : Type) : Type :=
| Resolved (a : A)
| Rejected (e : JsError).

Arguments Resolved {A} a.
Arguments Rejected {A} e.

(** [await c] followed by the rest of the body. *)
Definition bind {A B : Type} (c : outcome A) (k : A -> outcome B) : outcome B :=
  match c with
  | Resolved a => k a
  | Rejected e => Rejected e
  end.

(** [throw new Error(msg)] *)
Definition throw {A : Type} (msg : jstring) : outcome A :=
  Rejected {| message := msg |}.

(** [try { body } catch (error) { handler }] around awaited work. *)
Definition try_catch {A : Type} (body : outcome A) (handler : JsError -> outcome A)
    : outcome A :=
  match body with
  | Resolved a => Resolved a
  | Rejected e => handler e
  end.

Declare Scope async_scope.
Delimit Scope async_scope with async.
Notation "x <- c ;; k" := (bind c (fun x => k))
  (at level 61, c at next level, right associativity) : async_scope.
Notation "c ;;; k" := (bind c (fun _ => k))
  (at level 61, right associativity) : async_scope.
Open Scope async_scope.

(** [a / b] on bigints: truncating, and a RangeError when [b] is [0n]. *)
Definition bigint_div (a b : Z) : outcome Z :=
  if Z.eqb b 0 then throw (js "Division by zero") else Resolved (Z.quot a b).

(* ===================================================================== *)
(** ** types.ts and the step list of a transaction *)
(* ===================================================================== *)

Definition USDC_COIN_TYPE : jstring :=
  js "0xdba34672e30cb065b1f93e3ab55318768fd6fef66c15942c9f7cb846e2f900e7::usdc::USDC".

Record AssetPosition := {
  amount : Z;
  symbol : jstring;
  coinType : jstring;
  decimals : nat
}.

Record PositionInfo := {
  collateral : AssetPosition;
  debt : AssetPosition
}.

(** A quote of the swap router; the two amounts are the integers that
    their decimal strings denote. *)
Record Quote := {
  amountIn : Z;
  amountOut : Z
}.

(** The coins a deleverage transaction names. *)
Inductive Coin : Type :=
| LoanCoin | WithdrawnCoin | CoinToSwap | SwappedUsdc | FlashRepayment.

(** The commands a builder adds to a [Transaction], in order. *)
Inductive Step : Type :=
| BorrowFlashLoan (amt : Z) (asset : jstring)
| RefreshOracles (coinTypes : list jstring) (user : jstring)
| RepayDebt (ct : jstring) (coin : Coin) (user : jstring)
| WithdrawCollateral (ct : jstring) (amt : jstring) (user : jstring)
| SplitCoins (source : Coin) (amt : Z) (result : Coin)
| SwapCoins (q : Quote) (signer : jstring) (coinIn : Coin) (slippageBps : Z)
| RepayFlashLoan (coin : Coin) (asset : jstring)
| TransferObjects (coins : list Coin) (recipient : jstring)
| SetSender (user : jstring)
| SetGasBudget (budget : Z).

Definition Transaction := list Step.

(** The collaborators of a builder.  Each adapter call either rejects or
    settles, and a settled call is recorded as one step.  The flash-loan
    client ([lib/scallop]) is kept abstract: its fee schedule
    [calculateFee] is a parameter, and its two builders are recorded as
    steps. *)
Record Collaborators := {
  calculateFee : Z -> Z;
  quote : jstring -> jstring -> jstring -> outcome (list Quote);
  swap : Quote -> jstring -> outcome unit;
  getTokenPrice : jstring -> outcome unit;
  refreshOracles : list jstring -> jstring -> outcome unit;
  repay : jstring -> jstring -> outcome unit;
  withdraw : jstring -> jstring -> jstring -> outcome unit
}.

(* ===================================================================== *)
(** ** strategies/deleverage.ts *)
(* ===================================================================== *)

(** [Number(s)] for a string [s] that denotes the integer [n]: the double
    nearest to [n], a tie going to the even significand of 53 bits, which
    is the value ECMAScript prescribes for numerals of up to 20
    significant digits and the one V8 computes for longer ones too.  The
    result is given by its value, and [2 ^ 1024] stands for Infinity.
    Integers of a magnitude below [2 ^ 53] are doubles themselves. *)
Definition Number_of_integer (n : Z) : Z :=
  let a := Z.abs n in
  let e := (Z.log2 a - 52)%Z in
  if Z.leb e 0 then n
  else
    let q := Z.shiftr a e in
    let r := Z.land a (Z.ones e) in
    let half := Z.shiftl 1 (e - 1) in
    let up := Z.ltb half r || (Z.eqb half r && Z.odd q) in
    let v := Z.shiftl (if up then q + 1 else q)%Z e in
    (Z.sgn n * (if Z.leb (2 ^ 1024) v then 2 ^ 1024 else v))%Z.

(** [qs.sort((a, b) => Number(b.amountOut) - Number(a.amountOut))]: a
    stable sort by decreasing output, the outputs compared as doubles
    (the difference of two equal infinities is NaN, which [sort] takes
    for 0, as it does the difference of two equal doubles). *)
Fixpoint insert_by_amountOut (q : Quote) (sorted : list Quote) : list Quote :=
  match sorted with
  | [] => [q]
  | h :: t =>
      if Z.leb (Number_of_integer (amountOut h)) (Number_of_integer (amountOut q))
      then q :: sorted
      else h :: insert_by_amountOut q t
  end.

Definition sort_by_amountOut (qs : list Quote) : list Quote :=
  fold_right insert_by_amountOut [] qs.

(** [DeleverageEstimate] without its display value [totalProfitUsd], a
    floating-point figure; the price request it needs is kept. *)
Record DeleverageEstimate := {
  flashLoanUsdc : Z;
  flashLoanFee : Z;
  totalRepayment : Z;
  swapAmount : Z;
  keepCollateral : Z;
  estimatedUsdcProfit : Z
}.

(** The TypeError of reading a property of [undefined] (element 0 of an
    empty array).  The arrow of the two "No swap quotes" messages is
    written [->] below. *)
Definition undefined_read : jstring :=
  js "Cannot read properties of undefined".

Section Deleverage.

Variable env : Collaborators.

Definition calculateDeleverageEstimate (position : PositionInfo)
    : outcome DeleverageEstimate :=
  let borrowAmount := amount (debt position) in
  let supplyAmount := amount (collateral position) in
  let supplyCoinType := coinType (collateral position) in
  (* Flash loan with 0.5% buffer *)
  let flashLoanUsdc := Z.quot (borrowAmount * 1005) 1000 in
  let flashLoanFee := calculateFee env flashLoanUsdc in
  let totalRepayment := (flashLoanUsdc + flashLoanFee)%Z in
  (* Get swap rate - use full collateral amount *)
  let withdrawAmount := supplyAmount in
  fullSwapQuotes <-
    quote env (BigInt.toString withdrawAmount) supplyCoinType USDC_COIN_TYPE ;;
  if Nat.eqb (length fullSwapQuotes) 0 then
    throw (js "No swap quotes found for " ++ symbol (collateral position)
             ++ js " -> USDC")
  else
  match sort_by_amountOut fullSwapQuotes with
  | [] => throw undefined_read
  | fullQuote :: _ =>
      let fullSwapOut := amountOut fullQuote in
      let fullSwapIn := amountIn fullQuote in
      (* Calculate optimal swap amount (with 2% buffer) *)
      let targetUsdcOut := Z.quot (totalRepayment * 102) 100 in
      requiredSwapIn <- bigint_div (targetUsdcOut * fullSwapIn) fullSwapOut ;;
      let actualSwapIn :=
        if Z.ltb withdrawAmount requiredSwapIn then withdrawAmount
        else requiredSwapIn in
      let keepCollateral := (withdrawAmount - actualSwapIn)%Z in
      estimatedUsdcProfit <-
        (if Z.ltb totalRepayment fullSwapOut
         then (swapped <- bigint_div (actualSwapIn * fullSwapOut) fullSwapIn ;;
               Resolved (swapped - totalRepayment)%Z)
         else Resolved 0%Z) ;;
      getTokenPrice env supplyCoinType ;;;
      Resolved
        {| flashLoanUsdc := flashLoanUsdc;
           flashLoanFee := flashLoanFee;
           totalRepayment := totalRepayment;
           swapAmount := actualSwapIn;
           keepCollateral := keepCollateral;
           estimatedUsdcProfit := estimatedUsdcProfit |}
  end.

(** [buildDeleverageTransaction(tx, params)]: the steps are added to [tx]
    in the order of the source; the result is the transaction as built. *)
Definition buildDeleverageTransaction (tx : Transaction) (userAddress : jstring)
    (position : PositionInfo) : outcome Transaction :=
  let supplyCoinType := coinType (collateral position) in
  let supplyAmount := amount (collateral position) in
  (* Calculate estimates *)
  estimate <- calculateDeleverageEstimate position ;;
  (* 1. Flash loan USDC *)
  let tx := tx ++ [BorrowFlashLoan (flashLoanUsdc estimate) (js "usdc")] in
  (* 2. Refresh oracles *)
  refreshOracles env [supplyCoinType; USDC_COIN_TYPE] userAddress ;;;
  let tx := tx ++ [RefreshOracles [supplyCoinType; USDC_COIN_TYPE] userAddress] in
  (* 3. Repay debt using flash loan *)
  repay env USDC_COIN_TYPE userAddress ;;;
  let tx := tx ++ [RepayDebt USDC_COIN_TYPE LoanCoin userAddress] in
  (* 4. Withdraw ALL collateral *)
  let withdrawAmount := supplyAmount in
  withdraw env supplyCoinType (BigInt.toString withdrawAmount) userAddress ;;;
  let tx := tx ++ [WithdrawCollateral supplyCoinType
                     (BigInt.toString withdrawAmount) userAddress] in
  (* 5. Get swap quote and swap *)
  swapQuotes <-
    quote env (BigInt.toString (swapAmount estimate)) supplyCoinType
      USDC_COIN_TYPE ;;
  if Nat.eqb (length swapQuotes) 0 then
    throw (js "No swap quotes for " ++ symbol (collateral position)
             ++ js " -> USDC")
  else
  match sort_by_amountOut swapQuotes with
  | [] => throw undefined_read
  | bestQuote :: _ =>
      (* Split coin for swap *)
      let tx := tx ++ [SplitCoins WithdrawnCoin (swapAmount estimate) CoinToSwap] in
      swap env bestQuote userAddress ;;;
      let tx := tx ++ [SwapCoins bestQuote userAddress CoinToSwap 100] in
      (* 6. Repay flash loan *)
      let tx := tx ++ [SplitCoins SwappedUsdc (totalRepayment estimate)
                         FlashRepayment] in
      let tx := tx ++ [RepayFlashLoan FlashRepayment (js "usdc")] in
      (* 7. Transfer remaining to user *)
      Resolved
        (tx ++ [TransferObjects [WithdrawnCoin; SwappedUsdc; LoanCoin]
                  userAddress])
  end.

End Deleverage.

(* ===================================================================== *)
(** ** protocols/suilend.ts: [getMaxWithdrawableAmount] *)
(* ===================================================================== *)

(** JavaScript numbers, idealised: a number is the rational it denotes, so
    the rounding of doubles is left out.  The guards of
    [getMaxWithdrawableAmount] only compare such values with zero. *)
Module Num.

Definition number := Qc.

Definition of_bigint (n : Z) : number := Q2Qc (inject_Z n).
Definition pow10 (d : nat) : number := Q2Qc (inject_Z (10 ^ Z.of_nat d)).
Definition lteb (a b : number) : bool :=
  match Qccompare a b with Gt => false | _ => true end.
Definition ltb (a b : number) : bool :=
  match Qccompare a b with Lt => true | _ => false end.
Definition eqb (a b : number) : bool :=
  match Qccompare a b with Eq => true | _ => false end.
Definition min (a b : number) : number := if ltb b a then b else a.

(** [x.toFixed(6)] *)
Definition toFixed6 (x : number) : jstring :=
  let scaled := Qmult (Qabs x) (inject_Z (10 ^ 6)) in
  let digits := BigInt.toString (BN.round_half_up scaled) in
  let pad := padStart 7 "0"%char digits in
  let transition := length pad - 6 in
  (if ltb x (Q2Qc 0) then js "-" else [])
    ++ slice_to transition pad ++ js "." ++ slice_from transition pad.

End Num.

Definition toLowerCase_unit (c : ascii) : ascii :=
  let n := nat_of_ascii c in
  if Nat.leb 65 n && Nat.leb n 90 then ascii_of_nat (n + 32) else c.

Definition toLowerCase (s : jstring) : jstring := map toLowerCase_unit s.

Record MarketReserve := {
  mr_coinType : jstring;
  mr_decimals : nat;
  mr_symbol : jstring
}.

(** The on-chain obligation and reserve fields the adapter reads, each
    given as the integer that [BigInt(...)] or [Number(...)] reads from
    it (an absent USD field, which the code reads as 0, is 0 here); a
    field that comes wrapped in an object is not covered. *)
Record RawDeposit := {
  rd_coinType_name : jstring;
  depositedCtokenAmount : Z
}.

Record RawObligation := {
  raw_deposits : list RawDeposit;
  raw_borrows_length : nat;
  allowedBorrowValueUsd : Z;
  borrowedValueUsd : Z
}.

Record RawReserve := {
  rr_coinType_name : jstring;
  rr_price : Z;
  cTokenExchangeRate : Z;
  rr_openLtvPct : Z
}.

Record SuilendAdapter := {
  adapter_initialized : bool;
  getObligationOwnerCaps : jstring -> outcome (list jstring);
  getObligation : jstring -> outcome (option RawObligation);
  lendingMarket_reserves : list RawReserve
}.

Section SuilendAdapterMethods.

(** [SUILEND_RESERVES] of [lib/suilend/const.ts]. *)
Variable SUILEND_RESERVES : list MarketReserve.

Definition getReserveByCoinType (ct : jstring) : option MarketReserve :=
  let normalized := toLowerCase ct in
  find (fun r => jstring_eqb (toLowerCase (mr_coinType r)) normalized)
       SUILEND_RESERVES.

Definition adapter_ensureInitialized (a : SuilendAdapter) : outcome unit :=
  if negb (adapter_initialized a)
  then throw (js "SuilendAdapter not initialized. Call initialize() first.")
  else Resolved tt.

(** [depositedAmount.toFixed(6).replace(/\.?0+$/, '')] *)
Definition fixed6_trimmed (x : Num.number) : jstring :=
  strip_dot_zeros (Num.toFixed6 x).

Definition getMaxWithdrawableAmount (a : SuilendAdapter)
    (address ct : jstring) : outcome jstring :=
  adapter_ensureInitialized a ;;;
  caps <- getObligationOwnerCaps a address ;;
  match caps with
  | [] => Resolved (js "0")
  | obligationId :: _ =>
  obligation <- getObligation a obligationId ;;
  match obligation with
  | None => Resolved (js "0")
  | Some obligation =>
  (* Find deposit *)
  match find (fun d => jstring_eqb (normalizeCoinType (rd_coinType_name d))
                                   (normalizeCoinType ct))
             (raw_deposits obligation) with
  | None => Resolved (js "0")
  | Some deposit =>
  let localReserve := getReserveByCoinType (normalizeCoinType ct) in
  let decimals :=
    match localReserve with
    | Some r => if Nat.eqb (mr_decimals r) 0 then 9 else mr_decimals r
    | None => 9
    end in
  let depositedRaw := depositedCtokenAmount deposit in
  let reserve :=
    find (fun r => jstring_eqb (normalizeCoinType (rr_coinType_name r))
                               (normalizeCoinType ct))
         (lendingMarket_reserves a) in
  let rate :=
    match reserve with
    | Some r => Qcdiv (Num.of_bigint (cTokenExchangeRate r)) (Num.pow10 18)
    | None => Q2Qc 1
    end in
  let depositedAmount :=
    Qcmult (Qcdiv (Num.of_bigint depositedRaw) (Num.pow10 decimals)) rate in
  (* If no borrows, can withdraw all *)
  if Nat.eqb (raw_borrows_length obligation) 0 then
    Resolved (fixed6_trimmed depositedAmount)
  else
  let allowedBorrow :=
    Qcdiv (Num.of_bigint (allowedBorrowValueUsd obligation)) (Num.pow10 18) in
  let currentBorrow :=
    Qcdiv (Num.of_bigint (borrowedValueUsd obligation)) (Num.pow10 18) in
  let excessValue := Qcminus allowedBorrow currentBorrow in
  if Num.lteb excessValue (Q2Qc 0) then Resolved (js "0")
  else
  (* Buffer 0.95 *)
  let safeValue := Qcmult excessValue (Q2Qc (95 # 100)) in
  (* Need price to convert Value -> Amount *)
  let price :=
    match reserve with
    | Some r => Qcdiv (Num.of_bigint (rr_price r)) (Num.pow10 18)
    | None => Q2Qc 0
    end in
  if Num.eqb price (Q2Qc 0) then Resolved (js "0")
  else
  let ltv :=
    match reserve with
    | Some r => Qcdiv (Num.of_bigint (rr_openLtvPct r)) (Q2Qc 100)
    | None => Q2Qc 0
    end in
  if Num.eqb ltv (Q2Qc 0) then Resolved (fixed6_trimmed depositedAmount)
  else
  let maxWithdrawAmount :=
    if Num.ltb (Q2Qc 0) ltv then Qcdiv safeValue (Qcmult price ltv)
    else depositedAmount in
  let finalAmount := Num.min maxWithdrawAmount depositedAmount in
  Resolved (fixed6_trimmed finalAmount)
  end end end.

End SuilendAdapterMethods.

(* ===================================================================== *)
(** ** sdk.ts: the [DefiDashSDK] facade *)
(* ===================================================================== *)

Inductive LendingProtocol : Type := Suilend | Navi.

Definition LendingProtocol_eqb (a b : LendingProtocol) : bool :=
  match a, b with
  | Suilend, Suilend | Navi, Navi => true
  | _, _ => false
  end.

(** The enum values, as they print in messages. *)
Definition LendingProtocol_value (p : LendingProtocol) : jstring :=
  match p with Suilend => js "suilend" | Navi => js "navi" end.

(** A number that may be infinite, for [healthFactor] and the USD totals. *)
Inductive jsnumber : Type :=
| NumNaN
| NumInfinity (negative : bool)
| NumFinite (q : Qc).

(** [PositionSide] and [Position] of [types.ts]. *)
Inductive PositionSide : Type := SupplySide | BorrowSide.

Record Reward := {
  reward_symbol : jstring;
  reward_amount : jsnumber;
  reward_valueUsd : option jsnumber
}.

Record Position := {
  pos_protocol : LendingProtocol;
  pos_coinType : jstring;
  pos_symbol : jstring;
  pos_side : PositionSide;
  pos_amount : jsnumber;
  pos_amountRaw : option jstring;
  pos_valueUsd : jsnumber;
  pos_apy : jsnumber;
  pos_rewardsApy : option jsnumber;
  pos_rewards : option (list Reward);
  pos_estimatedLiquidationPrice : option jsnumber
}.

(** [AccountPortfolio] of [types.ts]; an optional property that is absent
    is [None]. *)
Record AccountPortfolio := {
  ap_protocol : LendingProtocol;
  ap_address : jstring;
  ap_healthFactor : jsnumber;
  ap_netValueUsd : jsnumber;
  ap_totalCollateralUsd : jsnumber;
  ap_totalDebtUsd : jsnumber;
  ap_totalDepositedUsd : option jsnumber;
  ap_weightedBorrowsUsd : option jsnumber;
  ap_borrowLimitUsd : option jsnumber;
  ap_liquidationThresholdUsd : option jsnumber;
  ap_positions : list Position;
  ap_netApy : option jsnumber;
  ap_totalAnnualNetEarningsUsd : option jsnumber
}.

Record StrategyResult := {
  success : bool;
  txDigest : option jstring;
  gasUsed : option Z;
  error : option jstring
}.

Record LeverageParams := {
  lp_protocol : LendingProtocol;
  depositAsset : jstring;
  depositAmount : jstring;
  multiplier : Num.number;
  lp_dryRun : bool
}.

Record DeleverageParams := {
  dp_protocol : LendingProtocol;
  dp_dryRun : bool
}.

(** A key pair; its address is [0x] followed by the digest of the public
    key. *)
Record Ed25519Keypair := { publicKeyDigest : jstring }.

Definition toSuiAddress (k : Ed25519Keypair) : jstring :=
  js "0x" ++ publicKeyDigest k.

(** [ILendingProtocol], as far as the facade and the builders call it. *)
Record ILendingProtocol := {
  initialize_adapter : outcome unit;
  getPosition : jstring -> outcome (option PositionInfo);
  getAccountPortfolio : jstring -> outcome AccountPortfolio;
  adapter_refreshOracles : list jstring -> jstring -> outcome unit;
  adapter_repay : jstring -> jstring -> outcome unit;
  adapter_withdraw : jstring -> jstring -> jstring -> outcome unit
}.

(** The effects of a transaction, as the status of the chain reports
    them. *)
Record TransactionEffects := {
  status_success : bool;
  status_error : option jstring;
  computationCost : Z
}.

Record ExecutionResponse := {
  digest : jstring;
  effects : option TransactionEffects
}.

(** What lies outside the facade: the swap and flash-loan clients, the
    price service, the chain, the two adapters that [initialize]
    constructs, the tables of [lib/suilend/const.ts], and the leverage
    builder of [strategies/leverage.ts], which is kept abstract. *)
Record Outside := {
  flashLoan_calculateFee : Z -> Z;
  swapClient_quote : jstring -> jstring -> jstring -> outcome (list Quote);
  swapClient_swap : Quote -> jstring -> outcome unit;
  price_getTokenPrice : jstring -> outcome unit;
  tx_build : Transaction -> outcome Transaction;
  dryRunTransactionBlock : Transaction -> outcome TransactionEffects;
  signAndExecuteTransaction :
    Ed25519Keypair -> Transaction -> outcome ExecutionResponse;
  new_SuilendAdapter : ILendingProtocol;
  new_NaviAdapter : ILendingProtocol;
  COIN_TYPES : list (jstring * jstring);
  RESERVES : list MarketReserve;
  buildLeverageTx :
    Transaction -> ILendingProtocol -> jstring -> jstring -> Z -> Num.number ->
    outcome Transaction
}.

(** [import { buildDeleverageTransaction as buildDeleverageTx }] *)
Definition buildDeleverageTx := buildDeleverageTransaction.

Module SDK.

(** The fields of a [DefiDashSDK] instance.  [protocols] is the [Map]
    from protocol to adapter. *)
Record t := {
  keypair : option Ed25519Keypair;
  _userAddress : option jstring;
  protocols : LendingProtocol -> option ILendingProtocol;
  initialized : bool
}.

(** [new DefiDashSDK()] *)
Definition create : t :=
  {| keypair := None;
     _userAddress := None;
     protocols := fun _ => None;
     initialized := false |}.

Definition protocols_set (k : LendingProtocol) (v : ILendingProtocol)
    (m : LendingProtocol -> option ILendingProtocol)
    : LendingProtocol -> option ILendingProtocol :=
  fun k' => if LendingProtocol_eqb k k' then Some v else m k'.

Section Methods.

Variable out : Outside.

(** [initialize(suiClient, keypairOrAddress)]: the instance as it is left,
    together with how the call settles. *)
Definition initialize (sdk : t) (keypairOrAddress : Ed25519Keypair + jstring)
    : outcome unit * t :=
  let sdk :=
    match keypairOrAddress with
    | inr address =>
        {| keypair := keypair sdk;
           _userAddress := Some address;
           protocols := protocols sdk;
           initialized := initialized sdk |}
    | inl kp =>
        {| keypair := Some kp;
           _userAddress := Some (toSuiAddress kp);
           protocols := protocols sdk;
           initialized := initialized sdk |}
    end in
  let suilend := new_SuilendAdapter out in
  match initialize_adapter suilend with
  | Rejected e => (Rejected e, sdk)
  | Resolved _ =>
      let sdk :=
        {| keypair := keypair sdk;
           _userAddress := _userAddress sdk;
           protocols := protocols_set Suilend suilend (protocols sdk);
           initialized := initialized sdk |} in
      let navi := new_NaviAdapter out in
      match initialize_adapter navi with
      | Rejected e => (Rejected e, sdk)
      | Resolved _ =>
          (Resolved tt,
           {| keypair := keypair sdk;
              _userAddress := _userAddress sdk;
              protocols := protocols_set Navi navi (protocols sdk);
              initialized := true |})
      end
  end.

Definition ensureInitialized (sdk : t) : outcome unit :=
  if negb (initialized sdk)
  then throw (js "SDK not initialized. Call initialize() first.")
  else Resolved tt.

Definition getProtocol (sdk : t) (protocol : LendingProtocol)
    : outcome ILendingProtocol :=
  match protocols sdk protocol with
  | None =>
      throw (js "Protocol " ++ LendingProtocol_value protocol
               ++ js " not supported")
  | Some adapter => Resolved adapter
  end.

(** The getter [userAddress]: an address that is missing or empty is
    "not set". *)
Definition userAddress (sdk : t) : outcome jstring :=
  match _userAddress sdk with
  | None | Some [] =>
      throw (js "User address not set. Call initialize() first.")
  | Some address => Resolved address
  end.

Definition toUpperCase_unit (c : ascii) : ascii :=
  let n := nat_of_ascii c in
  if Nat.leb 97 n && Nat.leb n 122 then ascii_of_nat (n - 32) else c.

Definition toUpperCase (s : jstring) : jstring := map toUpperCase_unit s.

Definition resolveCoinType (asset : jstring) : outcome jstring :=
  if includes (js "::") asset then Resolved (normalizeCoinType asset)
  else
    let upperSymbol := toUpperCase asset in
    match find (fun kv => jstring_eqb (fst kv) upperSymbol) (COIN_TYPES out) with
    | Some kv =>
        match snd kv with
        | [] => throw (js "Unknown asset symbol: " ++ asset)
        | ct => Resolved (normalizeCoinType ct)
        end
    | None => throw (js "Unknown asset symbol: " ++ asset)
    end.

(** The builder parameters assembled from the clients and one adapter. *)
Definition collaborators (protocol : ILendingProtocol) : Collaborators :=
  {| calculateFee := flashLoan_calculateFee out;
     quote := swapClient_quote out;
     swap := swapClient_swap out;
     getTokenPrice := price_getTokenPrice out;
     refreshOracles := adapter_refreshOracles protocol;
     repay := adapter_repay protocol;
     withdraw := adapter_withdraw protocol |}.

Definition buildLeverageTransaction (sdk : t) (tx : Transaction)
    (params : LeverageParams) : outcome Transaction :=
  ensureInitialized sdk ;;;
  protocol <- getProtocol sdk (lp_protocol params) ;;
  ct <- resolveCoinType (depositAsset params) ;;
  let reserve := getReserveByCoinType (RESERVES out) ct in
  let decimals :=
    match reserve with
    | Some r => if Nat.eqb (mr_decimals r) 0 then 8 else mr_decimals r
    | None => 8
    end in
  match parseUnits (depositAmount params) decimals with
  | None =>
      (* the SyntaxError of [BigInt] names the string it was given *)
      throw (js "Cannot convert "
               ++ parseUnits_literal (depositAmount params) decimals
               ++ js " to a BigInt")
  | Some amt =>
      address <- userAddress sdk ;;
      buildLeverageTx out tx protocol address ct amt (multiplier params)
  end.

Definition buildDeleverageTransaction (sdk : t) (tx : Transaction)
    (params : DeleverageParams) : outcome Transaction :=
  ensureInitialized sdk ;;;
  protocol <- getProtocol sdk (dp_protocol params) ;;
  (* Get current position *)
  address <- userAddress sdk ;;
  position <- getPosition protocol address ;;
  match position with
  | None => throw (js "No position found to deleverage")
  | Some position =>
      if Z.eqb (amount (debt position)) 0
      then throw (js "No debt to repay. Use withdraw instead.")
      else
        address <- userAddress sdk ;;
        buildDeleverageTx (collaborators protocol) tx address position
  end.

(** [error.message || String(error)] for a thrown [Error]. *)
Definition error_text (e : JsError) : jstring :=
  or_else (message e) (js "Error").

Definition failure (msg : jstring) : StrategyResult :=
  {| success := false; txDigest := None; gasUsed := None; error := Some msg |}.

Definition dryRun (sdk : t) (tx : Transaction) : outcome StrategyResult :=
  built <- tx_build out tx ;;
  result <- dryRunTransactionBlock out built ;;
  if status_success result then
    Resolved {| success := true;
                txDigest := None;
                gasUsed := Some (computationCost result);
                error := None |}
  else
    Resolved (failure
                (match status_error result with
                 | Some (c :: m) => c :: m
                 | _ => js "Dry run failed"
                 end)).

Definition execute (sdk : t) (tx : Transaction) : outcome StrategyResult :=
  match keypair sdk with
  | None => throw (js "Keypair required for execution")
  | Some kp =>
      result <- signAndExecuteTransaction out kp tx ;;
      match effects result with
      | Some eff =>
          if status_success eff then
            Resolved {| success := true;
                        txDigest := Some (digest result);
                        gasUsed := Some (computationCost eff);
                        error := None |}
          else
            Resolved {| success := false;
                        txDigest := Some (digest result);
                        gasUsed := None;
                        error := Some (match status_error eff with
                                       | Some (c :: m) => c :: m
                                       | _ => js "Execution failed"
                                       end) |}
      | None =>
          Resolved {| success := false;
                      txDigest := Some (digest result);
                      gasUsed := None;
                      error := Some (js "Execution failed") |}
      end
  end.

(** The body of a [try] block that ends in [return this.dryRun(tx)] or
    [return this.execute(tx)]: the block awaits the builder, and then
    completes with the promise of the call it returns.  That promise is
    not awaited inside the block, so the [catch] clause sees the failures
    of the builder only; the promise of the [async] method then settles
    as the returned promise does. *)
Definition try_build_then_return (built : outcome Transaction)
    (dry : bool) (sdk : t) : outcome StrategyResult :=
  let block : outcome (outcome StrategyResult) :=
    tx <- built ;;
    Resolved (if dry then dryRun sdk tx else execute sdk tx) in
  match
    try_catch block (fun e => Resolved (Resolved (failure (error_text e))))
  with
  | Resolved returned => returned
  | Rejected e => Rejected e
  end.

Definition leverage (sdk : t) (params : LeverageParams)
    : outcome StrategyResult :=
  ensureInitialized sdk ;;;
  match keypair sdk with
  | None =>
      Resolved (failure (js "Keypair required for execution. Use buildLeverageTransaction for browser."))
  | Some _ =>
      address <- userAddress sdk ;;
      let tx := [SetSender address; SetGasBudget 100000000] in
      try_build_then_return (buildLeverageTransaction sdk tx params)
        (lp_dryRun params) sdk
  end.

Definition deleverage (sdk : t) (params : DeleverageParams)
    : outcome StrategyResult :=
  ensureInitialized sdk ;;;
  match keypair sdk with
  | None =>
      Resolved (failure (js "Keypair required for execution. Use buildDeleverageTransaction for browser."))
  | Some _ =>
      address <- userAddress sdk ;;
      let tx := [SetSender address; SetGasBudget 100000000] in
      try_build_then_return (buildDeleverageTransaction sdk tx params)
        (dp_dryRun params) sdk
  end.

(** [Promise.all] over promises that have settled: the values in order,
    or the first rejection. *)
Fixpoint promise_all {A : Type} (ps : list (outcome A)) : outcome (list A) :=
  match ps with
  | [] => Resolved []
  | p :: rest =>
      a <- p ;;
      others <- promise_all rest ;;
      Resolved (a :: others)
  end.

(** The "resilient default" of [getAggregatedPortfolio]. *)
Definition default_portfolio (p : LendingProtocol) (address : jstring)
    : AccountPortfolio :=
  {| ap_protocol := p;
     ap_address := address;
     ap_healthFactor := NumInfinity false;
     ap_netValueUsd := NumFinite (Q2Qc 0);
     ap_totalCollateralUsd := NumFinite (Q2Qc 0);
     ap_totalDebtUsd := NumFinite (Q2Qc 0);
     ap_totalDepositedUsd := None;
     ap_weightedBorrowsUsd := None;
     ap_borrowLimitUsd := None;
     ap_liquidationThresholdUsd := None;
     ap_positions := [];
     ap_netApy := None;
     ap_totalAnnualNetEarningsUsd := None |}.

Definition getAggregatedPortfolio (sdk : t) : outcome (list AccountPortfolio) :=
  ensureInitialized sdk ;;;
  let protocols_list := [Suilend; Navi] in
  address <- userAddress sdk ;;
  promise_all
    (map
       (fun p =>
          fetched <-
            try_catch
              (match protocols sdk p with
               | Some adapter =>
                   portfolio <- getAccountPortfolio adapter address ;;
                   Resolved (Some portfolio)
               | None => Resolved None
               end)
              (fun _ => Resolved None) ;;
          match fetched with
          | Some portfolio => Resolved portfolio
          | None => Resolved (default_portfolio p address)
          end)
       protocols_list).

End Methods.
End SDK.

(* ===================================================================== *)
(** ** Notions used in the statements, and concrete inputs *)
(* ===================================================================== *)

Definition dcolon : jstring := js "::".

(** [clean a]: [a] contains no separator and does not end in a colon, so
    that a separator put after [a] is the first one found. *)
Definition clean (a : jstring) : bool := negb (includes dcolon (a ++ [":"%char])).

Definition package_clean (x : jstring) : bool :=
  match split (js "::") x with
  | [p0; _; _] => clean (replace (js "0x") [] p0)
  | _ => true
  end.

Definition is_digit (c : ascii) : bool := existsb (Ascii.eqb c) (js "0123456789").

Definition all_digits (s : jstring) : bool := forallb is_digit s.

(** The value of an unsigned digit string. *)
Definition digits_value (s : jstring) : option Z :=
  option_map (fun d => Z.of_N (N.of_uint d)) (BigInt.uint_of_digits s).

Definition all_zeros (s : jstring) : bool := forallb (Ascii.eqb "0"%char) s.

Definition dotsep : jstring := js ".".

Definition SUI_COIN_TYPE : jstring :=
  js "0x0000000000000000000000000000000000000000000000000000000000000002::sui::SUI".

(** A position with two deposits: 1000 USD of SUI and 500 USD of USDC, both
    with a close LTV of 80%, against weighted borrows of 500 USD. *)
Definition two_deposit_obligation : ParsedObligation :=
  {| netValueUsd := BN.of_Z 1000;
     obl_depositedAmountUsd := BN.of_Z 1500;
     borrowedAmountUsd := BN.of_Z 500;
     borrowLimitUsd := BN.of_Z 1050;
     unhealthyBorrowValueUsd := BN.of_Z 1200;
     weightedBorrowsUsd := BN.of_Z 500;
     deposits :=
       [ {| dep_coinType := SUI_COIN_TYPE;
            depositedAmount := BN.of_Z 250;
            depositedAmountUsd := BN.of_Z 1000;
            dep_config := {| openLtvPct := 70; closeLtvPct := 80 |} |};
         {| dep_coinType := USDC_COIN_TYPE;
            depositedAmount := BN.of_Z 500;
            depositedAmountUsd := BN.of_Z 500;
            dep_config := {| openLtvPct := 70; closeLtvPct := 80 |} |} ] |}.

(** A router with one route that pays one unit of USDC for 200 units of
    the collateral. *)
Definition example_quote (amountIn ctIn ctOut : jstring) : outcome (list Quote) :=
  match BigInt.of_string amountIn with
  | Some n => Resolved [ {| amountIn := n; amountOut := Z.quot n 200 |} ]
  | None => throw (js "invalid amount")
  end.

(** Collaborators that all answer, with a flash-loan fee of 0.1%. *)
Definition example_env : Collaborators :=
  {| calculateFee := fun a => Z.quot a 1000;
     quote := example_quote;
     swap := fun _ _ => Resolved tt;
     getTokenPrice := fun _ => Resolved tt;
     refreshOracles := fun _ _ => Resolved tt;
     repay := fun _ _ => Resolved tt;
     withdraw := fun _ _ _ => Resolved tt |}.

Definition example_user : jstring := js "0xa11ce".

Definition example_position (collateralAmount debtAmount : Z) : PositionInfo :=
  {| collateral := {| amount := collateralAmount; symbol := js "SUI";
                      coinType := SUI_COIN_TYPE; decimals := 9 |};
     debt := {| amount := debtAmount; symbol := js "USDC";
                coinType := USDC_COIN_TYPE; decimals := 6 |} |}.

Definition example_reserves : list MarketReserve :=
  [ {| mr_coinType := SUI_COIN_TYPE; mr_decimals := 9; mr_symbol := js "SUI" |} ].

(** An account with 1 SUI deposited, where SUI has an open LTV of 0, and
    with debt that uses the whole borrow limit of 700 USD. *)
Definition example_obligation (borrows : nat) : RawObligation :=
  {| raw_deposits :=
       [ {| rd_coinType_name :=
              js "0000000000000000000000000000000000000000000000000000000000000002::sui::SUI";
            depositedCtokenAmount := 1000000000 |} ];
     raw_borrows_length := borrows;
     allowedBorrowValueUsd := 700 * 10 ^ 18;
     borrowedValueUsd := 700 * 10 ^ 18 |}.

Definition example_adapter (borrows : nat) : SuilendAdapter :=
  {| adapter_initialized := true;
     getObligationOwnerCaps := fun _ => Resolved [js "0x0b1"];
     getObligation := fun _ => Resolved (Some (example_obligation borrows));
     lendingMarket_reserves :=
       [ {| rr_coinType_name :=
              js "0000000000000000000000000000000000000000000000000000000000000002::sui::SUI";
            rr_price := 2 * 10 ^ 18;
            cTokenExchangeRate := 10 ^ 18;
            rr_openLtvPct := 0 |} ] |}.

(** What one entry of the aggregated portfolio must be: the portfolio the
    adapter of [p] returns, or the default when the adapter is missing or
    its request fails: health factor Infinity, the three USD totals that
    the type requires 0, no positions, and every optional property
    absent. *)
Definition resilient_entry (sdk : SDK.t) (address : jstring)
    (p : LendingProtocol) (x : AccountPortfolio) : Prop :=
  (forall adapter r,
     SDK.protocols sdk p = Some adapter ->
     getAccountPortfolio adapter address = Resolved r -> x = r) /\
  ((SDK.protocols sdk p = None \/
    exists adapter e,
      SDK.protocols sdk p = Some adapter /\
      getAccountPortfolio adapter address = Rejected e) ->
   ap_protocol x = p /\
   ap_address x = address /\
   ap_healthFactor x = NumInfinity false /\
   ap_netValueUsd x = NumFinite (Q2Qc 0) /\
   ap_totalCollateralUsd x = NumFinite (Q2Qc 0) /\
   ap_totalDebtUsd x = NumFinite (Q2Qc 0) /\
   ap_totalDepositedUsd x = None /\
   ap_weightedBorrowsUsd x = None /\
   ap_borrowLimitUsd x = None /\
   ap_liquidationThresholdUsd x = None /\
   ap_positions x = [] /\
   ap_netApy x = None /\
   ap_totalAnnualNetEarningsUsd x = None).

(** A result has the shape of a [StrategyResult]: a failure carries its
    message. *)
Definition well_shaped (r : StrategyResult) : Prop :=
  success r = false -> exists msg, error r = Some msg /\ msg <> [].

Definition session_tx (address : jstring) : Transaction :=
  [SetSender address; SetGasBudget 100000000].

Definition example_suilend : ILendingProtocol :=
  {| initialize_adapter := Resolved tt;
     getPosition := fun _ => Resolved (Some (example_position 100000000 1000000));
     getAccountPortfolio := fun address =>
       Resolved {| ap_protocol := Suilend;
                   ap_address := address;
                   ap_healthFactor := NumFinite (Q2Qc 2);
                   ap_netValueUsd := NumFinite (Q2Qc 500);
                   ap_totalCollateralUsd := NumFinite (Q2Qc 1000);
                   ap_totalDebtUsd := NumFinite (Q2Qc 500);
                   ap_totalDepositedUsd := Some (NumFinite (Q2Qc 1000));
                   ap_weightedBorrowsUsd := Some (NumFinite (Q2Qc 500));
                   ap_borrowLimitUsd := Some (NumFinite (Q2Qc 700));
                   ap_liquidationThresholdUsd := Some (NumFinite (Q2Qc 800));
                   ap_positions := [];
                   ap_netApy := None;
                   ap_totalAnnualNetEarningsUsd := None |};
     adapter_refreshOracles := fun _ _ => Resolved tt;
     adapter_repay := fun _ _ => Resolved tt;
     adapter_withdraw := fun _ _ _ => Resolved tt |}.

(** A Navi adapter whose portfolio request fails. *)
Definition example_navi : ILendingProtocol :=
  {| initialize_adapter := Resolved tt;
     getPosition := fun _ => Resolved None;
     getAccountPortfolio := fun _ => throw (js "navi request failed");
     adapter_refreshOracles := fun _ _ => Resolved tt;
     adapter_repay := fun _ _ => Resolved tt;
     adapter_withdraw := fun _ _ _ => Resolved tt |}.

(** A chain whose dry run succeeds and whose node is unreachable for
    execution. *)
Definition example_outside : Outside :=
  {| flashLoan_calculateFee := fun a => Z.quot a 1000;
     swapClient_quote := example_quote;
     swapClient_swap := fun _ _ => Resolved tt;
     price_getTokenPrice := fun _ => Resolved tt;
     tx_build := fun tx => Resolved tx;
     dryRunTransactionBlock := fun _ =>
       Resolved {| status_success := true; status_error := None;
                   computationCost := 1000000 |};
     signAndExecuteTransaction := fun _ _ => throw (js "fetch failed");
     new_SuilendAdapter := example_suilend;
     new_NaviAdapter := example_navi;
     COIN_TYPES := [ (js "SUI", SUI_COIN_TYPE); (js "USDC", USDC_COIN_TYPE) ];
     RESERVES := example_reserves;
     buildLeverageTx := fun tx _ _ _ _ _ => Resolved tx |}.

Definition example_keypair : Ed25519Keypair := {| publicKeyDigest := js "a11ce" |}.

(** The session after [initialize(client, keypair)], and the one after
    [initialize(client, address)]. *)
Definition keypair_session : SDK.t :=
  snd (SDK.initialize example_outside SDK.create (inl example_keypair)).

Definition browser_session : SDK.t :=
  snd (SDK.initialize example_outside SDK.create (inr (js "0xa11ce"))).

Definition example_leverage (asset : jstring) (dry : bool) : LeverageParams :=
  {| lp_protocol := Suilend;
     depositAsset := asset;
     depositAmount := js "1.5";
     multiplier := Q2Qc 2;
     lp_dryRun := dry |}.

Definition example_deleverage (dry : bool) : DeleverageParams :=
  {| dp_protocol := Suilend; dp_dryRun := dry |}.

(* ===================================================================== *)
(** ** lib/suilend/const.ts: the tables *)
(* ===================================================================== *)

(** [SUILEND_RESERVES] of [lib/suilend/const.ts] (the object ids are left
    out). *)
Definition SUILEND_RESERVES : list MarketReserve :=
  [
    {| mr_coinType :=
         js "0x0000000000000000000000000000000000000000000000000000000000000002::sui::SUI";
       mr_decimals := 9; mr_symbol := js "SUI" |};
    {| mr_coinType :=
         js "0x5d4b302506645c37ff133b98c4b50a5ae14841659738d6d733d59d0d217a93bf::coin::COIN";
       mr_decimals := 6; mr_symbol := js "wUSDC" |};
    {| mr_coinType :=
         js "0xc060006111016b8a020ad5b33834984a437aaa7d3c74c18e09a95d48aceab08c::coin::COIN";
       mr_decimals := 6; mr_symbol := js "wUSDT" |};
    {| mr_coinType :=
         js "0xaf8cd5edc19c4512f4259f0bee101a40d41ebed738ade5874359610ef8eeced5::coin::COIN";
       mr_decimals := 8; mr_symbol := js "wETH" |};
    {| mr_coinType :=
         js "0xb7844e289a8410e50fb3ca48d69eb9cf29e27d223ef90353fe1bd8e27ff8f3f8::coin::COIN";
       mr_decimals := 8; mr_symbol := js "wSOL" |};
    {| mr_coinType :=
         js "0x2053d08c1e2bd02791056171aab0fd12bd7cd7efad2ab8f6b9c8902f14df2ff2::ausd::AUSD";
       mr_decimals := 6; mr_symbol := js "AUSD" |};
    {| mr_coinType :=
         js "0x76cb819b01abed502bee8a702b4c2d547532c12f25001c9dea795a5e631c26f1::fud::FUD";
       mr_decimals := 5; mr_symbol := js "FUD" |};
    {| mr_coinType :=
         js "0xdba34672e30cb065b1f93e3ab55318768fd6fef66c15942c9f7cb846e2f900e7::usdc::USDC";
       mr_decimals := 6; mr_symbol := js "USDC" |};
    {| mr_coinType :=
         js "0xdeeb7a4662eec9f2f3def03fb937a663dddaa2e215b8078a284d026b7946c270::deep::DEEP";
       mr_decimals := 6; mr_symbol := js "DEEP" |};
    {| mr_coinType :=
         js "0xd0e89b2af5e4910726fbcd8b8dd37bb79b29e5f83f7491bca830e94f7f226d29::eth::ETH";
       mr_decimals := 8; mr_symbol := js "ETH" |};
    {| mr_coinType :=
         js "0x83556891f4a0f233ce7b05cfe7f957d4020492a34f5405b2cb9377d060bef4bf::spring_sui::SPRING_SUI";
       mr_decimals := 9; mr_symbol := js "sSUI" |};
    {| mr_coinType :=
         js "0x922d15d7f55c13fd790f6e54397470ec592caa2b508df292a2e8553f3d3b274f::msui::MSUI";
       mr_decimals := 9; mr_symbol := js "mSUI" |};
    {| mr_coinType :=
         js "0x8993129d72e733985f7f1a00396cbd055bad6f817fee36576ce483c8bbb8b87b::sudeng::SUDENG";
       mr_decimals := 9; mr_symbol := js "SUDENG" |};
    {| mr_coinType :=
         js "0x5145494a5f5100e645e4b0aa950fa6b68f614e8c59e17bc5ded3495123a79178::ns::NS";
       mr_decimals := 6; mr_symbol := js "NS" |};
    {| mr_coinType :=
         js "0x375f70cf2ae4c00bf37117d0c85a2c71545e6ee05c4a5c7d282cd66a4504b068::usdt::USDT";
       mr_decimals := 6; mr_symbol := js "USDT" |};
    {| mr_coinType :=
         js "0xce7ff77a83ea0cb6fd39bd8748e2ec89a3f41e8efdc3f4eb123e0ca37b184db2::buck::BUCK";
       mr_decimals := 9; mr_symbol := js "BUCK" |};
    {| mr_coinType :=
         js "0xaafb102dd0902f5055cadecd687fb5b71ca82ef0e0285d90afde828ec58ca96b::btc::BTC";
       mr_decimals := 8; mr_symbol := js "BTC" |};
    {| mr_coinType :=
         js "0xe1b45a0e641b9955a20aa0ad1c1f4ad86aad8afb07296d4085e349a50e90bdca::blue::BLUE";
       mr_decimals := 9; mr_symbol := js "BLUE" |};
    {| mr_coinType :=
         js "0x3e8e9423d80e1774a7ca128fccd8bf5f1f7753be658c5e645929037f7c819040::lbtc::LBTC";
       mr_decimals := 8; mr_symbol := js "LBTC" |};
    {| mr_coinType :=
         js "0x356a26eb9e012a68958082340d4c4116e7f55615cf27affcff209cf0ae544f59::wal::WAL";
       mr_decimals := 9; mr_symbol := js "WAL" |};
    {| mr_coinType :=
         js "0x3a304c7feba2d819ea57c3542d68439ca2c386ba02159c740f7b406e592c62ea::haedal::HAEDAL";
       mr_decimals := 9; mr_symbol := js "HAEDAL" |};
    {| mr_coinType :=
         js "0x876a4b7bce8aeaef60464c11f4026903e9afacab79b9b142686158aa86560b50::xbtc::XBTC";
       mr_decimals := 8; mr_symbol := js "xBTC" |};
    {| mr_coinType :=
         js "0x7262fb2f7a3a14c888c438a3cd9b912469a58cf60f367352c46584262e8299aa::ika::IKA";
       mr_decimals := 9; mr_symbol := js "IKA" |};
    {| mr_coinType :=
         js "0x0041f9f9344cac094454cd574e333c4fdb132d7bcc9379bcd4aab485b2a63942::wbtc::WBTC";
       mr_decimals := 8; mr_symbol := js "wBTC" |} ].

(** [COIN_TYPES] of [lib/suilend/const.ts]. *)
Definition COIN_TYPES_table : list (jstring * jstring) :=
  [
    (js "SUI",
     js "0x0000000000000000000000000000000000000000000000000000000000000002::sui::SUI");
    (js "USDC",
     js "0xdba34672e30cb065b1f93e3ab55318768fd6fef66c15942c9f7cb846e2f900e7::usdc::USDC");
    (js "USDT",
     js "0x375f70cf2ae4c00bf37117d0c85a2c71545e6ee05c4a5c7d282cd66a4504b068::usdt::USDT");
    (js "ETH",
     js "0xd0e89b2af5e4910726fbcd8b8dd37bb79b29e5f83f7491bca830e94f7f226d29::eth::ETH");
    (js "BTC",
     js "0xaafb102dd0902f5055cadecd687fb5b71ca82ef0e0285d90afde828ec58ca96b::btc::BTC");
    (js "LBTC",
     js "0x3e8e9423d80e1774a7ca128fccd8bf5f1f7753be658c5e645929037f7c819040::lbtc::LBTC");
    (js "WAL",
     js "0x356a26eb9e012a68958082340d4c4116e7f55615cf27affcff209cf0ae544f59::wal::WAL");
    (js "DEEP",
     js "0xdeeb7a4662eec9f2f3def03fb937a663dddaa2e215b8078a284d026b7946c270::deep::DEEP");
    (js "wUSDC",
     js "0x5d4b302506645c37ff133b98c4b50a5ae14841659738d6d733d59d0d217a93bf::coin::COIN");
    (js "wUSDT",
     js "0xc060006111016b8a020ad5b33834984a437aaa7d3c74c18e09a95d48aceab08c::coin::COIN");
    (js "wETH",
     js "0xaf8cd5edc19c4512f4259f0bee101a40d41ebed738ade5874359610ef8eeced5::coin::COIN") ].

(** [getReserveBySymbol] of [lib/suilend/const.ts]. *)
Definition getReserveBySymbol (symbol : jstring) : option MarketReserve :=
  find (fun r => jstring_eqb (toLowerCase (mr_symbol r)) (toLowerCase symbol))
       SUILEND_RESERVES.

(** Strings of ASCII characters, on which [toUpperCase] and [toLowerCase]
    change the letters a-z and A-Z only. *)
Definition ascii_only (s : jstring) : bool :=
  forallb (fun c => Nat.ltb (nat_of_ascii c) 128) s.

(** The entries of [COIN_TYPES] whose key is its own upper case. *)
Definition upper_case_entries : list (jstring * jstring) :=
  filter (fun kv => jstring_eqb (SDK.toUpperCase (fst kv)) (fst kv))
         COIN_TYPES_table.

(** The outside world with the tables of [lib/suilend/const.ts]. *)
Definition with_tables (out : Outside) : Outside :=
  {| flashLoan_calculateFee := flashLoan_calculateFee out;
     swapClient_quote := swapClient_quote out;
     swapClient_swap := swapClient_swap out;
     price_getTokenPrice := price_getTokenPrice out;
     tx_build := tx_build out;
     dryRunTransactionBlock := dryRunTransactionBlock out;
     signAndExecuteTransaction := signAndExecuteTransaction out;
     new_SuilendAdapter := new_SuilendAdapter out;
     new_NaviAdapter := new_NaviAdapter out;
     COIN_TYPES := COIN_TYPES_table;
     RESERVES := SUILEND_RESERVES;
     buildLeverageTx := buildLeverageTx out |}.

(** The outside world with another node behind
    [signAndExecuteTransaction]. *)
Definition with_signer (out : Outside)
    (sign : Ed25519Keypair -> Transaction -> outcome ExecutionResponse)
    : Outside :=
  {| flashLoan_calculateFee := flashLoan_calculateFee out;
     swapClient_quote := swapClient_quote out;
     swapClient_swap := swapClient_swap out;
     price_getTokenPrice := price_getTokenPrice out;
     tx_build := tx_build out;
     dryRunTransactionBlock := dryRunTransactionBlock out;
     signAndExecuteTransaction := sign;
     new_SuilendAdapter := new_SuilendAdapter out;
     new_NaviAdapter := new_NaviAdapter out;
     COIN_TYPES := COIN_TYPES out;
     RESERVES := RESERVES out;
     buildLeverageTx := buildLeverageTx out |}.

(* ===================================================================== *)
(** ** Further notions used in the statements *)
(* ===================================================================== *)

(** A digit string with a zero appended. *)
Fixpoint snoc_zero (d : Decimal.uint) : Decimal.uint :=
  match d with
  | Decimal.Nil => Decimal.D0 Decimal.Nil
  | Decimal.D0 l => Decimal.D0 (snoc_zero l)
  | Decimal.D1 l => Decimal.D1 (snoc_zero l)
  | Decimal.D2 l => Decimal.D2 (snoc_zero l)
  | Decimal.D3 l => Decimal.D3 (snoc_zero l)
  | Decimal.D4 l => Decimal.D4 (snoc_zero l)
  | Decimal.D5 l => Decimal.D5 (snoc_zero l)
  | Decimal.D6 l => Decimal.D6 (snoc_zero l)
  | Decimal.D7 l => Decimal.D7 (snoc_zero l)
  | Decimal.D8 l => Decimal.D8 (snoc_zero l)
  | Decimal.D9 l => Decimal.D9 (snoc_zero l)
  end.

(** Hexadecimal digits, and strings without a colon. *)
Definition is_hex (c : ascii) : bool :=
  existsb (Ascii.eqb c) (js "0123456789abcdefABCDEF").

Definition hex_string (s : jstring) : bool := forallb is_hex s.

Definition no_colon (s : jstring) : bool :=
  forallb (fun c => negb (Ascii.eqb ":"%char c)) s.

(** Deposits of the collateral [ct], and deposits with a finite value. *)
Definition is_target (ct : jstring) (d : ParsedDeposit) : bool :=
  jstring_eqb (dep_coinType d) ct.

Definition finite_deposit (d : ParsedDeposit) : bool :=
  BN.is_finite (depositedAmountUsd d).

Definition sui_deposit : ParsedDeposit :=
  {| dep_coinType := SUI_COIN_TYPE;
     depositedAmount := BN.of_Z 250;
     depositedAmountUsd := BN.of_Z 1000;
     dep_config := {| openLtvPct := 70; closeLtvPct := 80 |} |}.

(** A position with a single deposit: 1000 USD of SUI against weighted
    borrows of 500 USD. *)
Definition sui_only_obligation : ParsedObligation :=
  {| netValueUsd := BN.of_Z 500;
     obl_depositedAmountUsd := BN.of_Z 1000;
     borrowedAmountUsd := BN.of_Z 500;
     borrowLimitUsd := BN.of_Z 700;
     unhealthyBorrowValueUsd := BN.of_Z 800;
     weightedBorrowsUsd := BN.of_Z 500;
     deposits := [sui_deposit] |}.

(* ===================================================================== *)
(** ** Properties *)
(* ===================================================================== *)

#[local] Arguments Ascii.eqb : simpl never.

(** *** Splitting on the separator [::] *)

Lemma split_nil sep : split sep [] = [[]].
Proof. reflexivity. Qed.

Lemma split_dcolon_hit t : split dcolon (":"%char :: ":"%char :: t) = [] :: split dcolon t.
Proof. reflexivity. Qed.

Lemma split_dcolon_miss c t :
  starts_with dcolon (c :: t) = false ->
  split dcolon (c :: t) = cons_head c (split dcolon t).
Proof.
  intros H. unfold split. cbn [split_from]. rewrite H. reflexivity.
Qed.

Lemma starts_with_dcolon_inv s :
  starts_with dcolon s = true -> exists t, s = ":"%char :: ":"%char :: t.
Proof.
  destruct s as [|a [|b t]]; simpl; try discriminate.
  - rewrite andb_false_r. discriminate.
  - intros H. apply andb_true_iff in H as [Ha H].
    apply andb_true_iff in H as [Hb _].
    apply Ascii.eqb_eq in Ha. apply Ascii.eqb_eq in Hb. subst. eauto.
Qed.

Lemma split_not_nil sep skip s : split_from sep skip s <> [].
Proof.
  revert skip. induction s as [|c t IH]; intros skip; simpl; [discriminate|].
  destruct skip; [|apply IH].
  destruct (starts_with sep (c :: t)); [discriminate|].
  destruct (split_from sep 0 t); discriminate.
Qed.

(** The head of [a ++ rest] when [rest] starts with a colon. *)
Lemma starts_with_dcolon_app c a r1 r2 :
  starts_with dcolon (c :: a ++ ":"%char :: r1) =
  starts_with dcolon (c :: a ++ ":"%char :: r2).
Proof.
  destruct a as [|b a]; simpl; [reflexivity|].
  reflexivity.
Qed.

Lemma clean_cons c a :
  clean (c :: a) = negb (starts_with dcolon (c :: a ++ [":"%char])) && clean a.
Proof.
  unfold clean. simpl includes.
  change (starts_with (js "::") (c :: a ++ [":"%char]))
    with (starts_with dcolon (c :: a ++ [":"%char])).
  rewrite negb_orb. reflexivity.
Qed.

Lemma split_app_clean a b :
  clean a = true -> split dcolon (a ++ dcolon ++ b) = a :: split dcolon b.
Proof.
  induction a as [|c a IH]; intros Hc.
  - reflexivity.
  - rewrite clean_cons in Hc. apply andb_true_iff in Hc as [Hh Ha].
    apply negb_true_iff in Hh.
    simpl app. rewrite split_dcolon_miss.
    + change (a ++ ":"%char :: ":"%char :: b) with (a ++ dcolon ++ b).
      rewrite (IH Ha). reflexivity.
    + rewrite (starts_with_dcolon_app c a (":"%char :: b) []). exact Hh.
Qed.

Lemma split_cons_inv : forall n s p rest,
  length s <= n ->
  split dcolon s = p :: rest -> rest <> [] ->
  exists b, s = p ++ dcolon ++ b /\ split dcolon b = rest /\ clean p = true.
Proof.
  induction n as [|n IH]; intros s p rest Hlen Hs Hrest.
  - destruct s; [|simpl in Hlen; lia].
    rewrite split_nil in Hs. inversion Hs; subst.
      exfalso; apply Hrest; reflexivity.
  - destruct s as [|c t].
    + rewrite split_nil in Hs. inversion Hs; subst.
      exfalso; apply Hrest; reflexivity.
    + destruct (starts_with dcolon (c :: t)) eqn:Hsw.
      * apply starts_with_dcolon_inv in Hsw as [t' E]. rewrite E in *.
        rewrite split_dcolon_hit in Hs. inversion Hs; subst.
        exists t'. repeat split; reflexivity.
      * rewrite (split_dcolon_miss _ _ Hsw) in Hs.
        destruct (split dcolon t) as [|q r] eqn:Ht.
        { exfalso. apply (split_not_nil dcolon 0 t). exact Ht. }
        simpl in Hs. inversion Hs; subst.
        destruct (IH t q rest) as [b [E [Hb Hq]]]; try assumption.
        { simpl in Hlen. lia. }
        exists b. repeat split; try assumption.
        -- rewrite E. reflexivity.
        -- rewrite clean_cons, Hq, andb_true_r. apply negb_true_iff.
           rewrite E in Hsw.
           rewrite (starts_with_dcolon_app c q [] (":"%char :: b)). exact Hsw.
Qed.

Lemma split_single_inv : forall n s p,
  length s <= n -> split dcolon s = [p] -> s = p.
Proof.
  induction n as [|n IH]; intros s p Hlen Hs.
  - destruct s; [|simpl in Hlen; lia]. rewrite split_nil in Hs. congruence.
  - destruct s as [|c t].
    + rewrite split_nil in Hs. congruence.
    + destruct (starts_with dcolon (c :: t)) eqn:Hsw.
      * apply starts_with_dcolon_inv in Hsw as [t' E]. rewrite E in *.
        rewrite split_dcolon_hit in Hs. inversion Hs as [[Hp Hr]].
        exfalso. apply (split_not_nil dcolon 0 t'). exact Hr.
      * rewrite (split_dcolon_miss _ _ Hsw) in Hs.
        destruct (split dcolon t) as [|q r] eqn:Ht.
        { exfalso. apply (split_not_nil dcolon 0 t). exact Ht. }
        simpl in Hs. inversion Hs; subst.
        f_equal. apply IH; [simpl in Hlen; lia | assumption].
Qed.

(** A string that splits into three parts is those parts joined. *)
Lemma split_three_inv s p0 p1 p2 :
  split dcolon s = [p0; p1; p2] ->
  s = p0 ++ dcolon ++ p1 ++ dcolon ++ p2 /\
  split dcolon (p1 ++ dcolon ++ p2) = [p1; p2].
Proof.
  intros Hs.
  destruct (split_cons_inv (length s) s _ _ (le_n _) Hs) as [b [E [Hb _]]];
    [discriminate|].
  destruct (split_cons_inv (length b) b _ _ (le_n _) Hb) as [b' [E' [Hb' _]]];
    [discriminate|].
  apply (split_single_inv (length b') b' _ (le_n _)) in Hb'. subst b'.
  subst b. split; [exact E | exact Hb].
Qed.

Lemma normalizeCoinType_three x p0 p1 p2 :
  split dcolon x = [p0; p1; p2] ->
  normalizeCoinType x =
  js "0x" ++ padStart 64 "0"%char (replace (js "0x") [] p0)
    ++ dcolon ++ p1 ++ dcolon ++ p2.
Proof.
  intros H. unfold normalizeCoinType.
  change (split (js "::") x) with (split dcolon x). rewrite H. reflexivity.
Qed.

Lemma normalizeCoinType_malformed x :
  length (split dcolon x) <> 3 -> normalizeCoinType x = x.
Proof.
  intros H. unfold normalizeCoinType.
  change (split (js "::") x) with (split dcolon x).
  apply Nat.eqb_neq in H. rewrite H. reflexivity.
Qed.

Lemma clean_cons_other c a :
  Ascii.eqb ":"%char c = false -> clean (c :: a) = clean a.
Proof.
  intros H. rewrite clean_cons.
  destruct a; simpl; rewrite H; reflexivity.
Qed.

Lemma clean_zeros k z : clean (repeat "0"%char k ++ z) = clean z.
Proof.
  induction k as [|k IH]; [reflexivity|].
  simpl. rewrite clean_cons_other; [exact IH | reflexivity].
Qed.

Lemma padStart_long n c s : n <= length s -> padStart n c s = s.
Proof.
  intros H. unfold padStart. replace (n - length s) with 0 by lia. reflexivity.
Qed.

Lemma padStart_length n c s : n <= length (padStart n c s).
Proof.
  unfold padStart. rewrite length_app, repeat_length. lia.
Qed.

Lemma normalizeCoinType_fixed_on_clean x p0 p1 p2 :
  split dcolon x = [p0; p1; p2] ->
  clean (replace (js "0x") [] p0) = true ->
  normalizeCoinType (normalizeCoinType x) = normalizeCoinType x.
Proof.
  intros Hs Hc.
  destruct (split_three_inv _ _ _ _ Hs) as [_ Htail].
  rewrite (normalizeCoinType_three _ _ _ _ Hs).
  set (pkg := padStart 64 "0"%char (replace (js "0x") [] p0)).
  assert (Hsplit : split dcolon (js "0x" ++ pkg ++ dcolon ++ p1 ++ dcolon ++ p2)
                   = [js "0x" ++ pkg; p1; p2]).
  { rewrite (app_assoc (js "0x") pkg). rewrite split_app_clean.
    - rewrite Htail. reflexivity.
    - change (js "0x" ++ pkg) with ("0"%char :: "x"%char :: pkg).
      rewrite !clean_cons_other by reflexivity.
      unfold pkg, padStart. rewrite clean_zeros. exact Hc. }
  rewrite (normalizeCoinType_three _ _ _ _ Hsplit).
  change (replace (js "0x") [] (js "0x" ++ pkg)) with pkg.
  rewrite (padStart_long 64 "0"%char pkg); [reflexivity|].
  apply padStart_length.
Qed.

(** C8 (amended): [normalizeCoinType] returns every malformed identifier
    (one that does not split into exactly three parts on [::]) unchanged,
    and it is idempotent on every identifier that is malformed or whose
    package part, once its first [0x] is removed, neither contains [::]
    nor ends in a colon. *)
Theorem normalizeCoinType_idempotent_on_clean_package (x : jstring) :
  (length (split (js "::") x) <> 3 -> normalizeCoinType x = x) /\
  (package_clean x = true ->
   normalizeCoinType (normalizeCoinType x) = normalizeCoinType x).
Proof.
  split.
  - apply normalizeCoinType_malformed.
  - unfold package_clean. change (split (js "::") x) with (split dcolon x).
    destruct (split dcolon x) as [|p0 [|p1 [|p2 [|p3 r]]]] eqn:Hs; intros Hc;
      try (assert (E : normalizeCoinType x = x)
             by (apply normalizeCoinType_malformed; rewrite Hs; simpl; lia);
           rewrite !E; reflexivity).
    exact (normalizeCoinType_fixed_on_clean x _ _ _ Hs Hc).
Qed.

Lemma normalizeCoinType_idempotent_witness :
  normalizeCoinType (js "sui") = js "sui" /\
  normalizeCoinType (normalizeCoinType (js "0x2::sui::SUI")) =
  normalizeCoinType (js "0x2::sui::SUI").
Proof.
  split.
  - apply (proj1 (normalizeCoinType_idempotent_on_clean_package (js "sui"))).
    vm_compute. lia.
  - apply (proj2 (normalizeCoinType_idempotent_on_clean_package (js "0x2::sui::SUI"))).
    vm_compute. reflexivity.
Defined.

(** C8 as stated fails: the package part [:0x] leaves a lone colon in
    front of the separator, the result splits one character earlier, and
    a second normalization pads with one more zero. *)
Lemma normalizeCoinType_not_idempotent :
  normalizeCoinType (normalizeCoinType (js ":0x::b::c")) <>
  normalizeCoinType (js ":0x::b::c").
Proof. vm_compute. discriminate. Qed.

(** *** Decimal digit strings *)

Lemma is_digit_cases c :
  is_digit c = true ->
  In c (js "0123456789").
Proof.
  unfold is_digit. intros H. apply existsb_exists in H as [d [Hin Hd]].
  apply Ascii.eqb_eq in Hd. subst. exact Hin.
Qed.

Ltac digit_cases c H :=
  apply is_digit_cases in H; simpl in H;
  repeat (destruct H as [H|H]; [subst c|]); [..|contradiction].

Lemma digit_not_dot c : is_digit c = true -> Ascii.eqb c "."%char = false.
Proof. intros H. digit_cases c H; reflexivity. Qed.

Lemma digit_not_sign c :
  is_digit c = true -> Ascii.eqb c "-"%char = false /\ Ascii.eqb c "+"%char = false.
Proof. intros H. digit_cases c H; split; reflexivity. Qed.

Lemma digits_of_uint_all_digits d : all_digits (BigInt.digits_of_uint d) = true.
Proof. induction d; simpl; try rewrite IHd; reflexivity. Qed.

Lemma uint_of_digits_of_uint d :
  BigInt.uint_of_digits (BigInt.digits_of_uint d) = Some d.
Proof. induction d; simpl; try rewrite IHd; reflexivity. Qed.

Lemma digits_value_zeros k s :
  digits_value (repeat "0"%char k ++ s) = digits_value s.
Proof.
  induction k as [|k IH]; [reflexivity|].
  unfold digits_value in *. simpl.
  destruct (BigInt.uint_of_digits (repeat "0"%char k ++ s)) as [d|];
    destruct (BigInt.uint_of_digits s) as [d'|]; simpl in *; try congruence.
Qed.

Lemma digit_not_white_space c :
  is_digit c = true -> BigInt.is_white_space c = false.
Proof. intros H. digit_cases c H; reflexivity. Qed.

Lemma digit_not_radix_prefix c :
  is_digit c = true ->
  Ascii.eqb c "x" || Ascii.eqb c "X" = false /\
  Ascii.eqb c "o" || Ascii.eqb c "O" = false /\
  Ascii.eqb c "b" || Ascii.eqb c "B" = false.
Proof. intros H. digit_cases c H; repeat split; reflexivity. Qed.

Lemma all_digits_rev s : all_digits (rev s) = all_digits s.
Proof.
  unfold all_digits. induction s as [|c t IH]; [reflexivity|].
  simpl. rewrite forallb_app, IH. simpl. rewrite andb_true_r. apply andb_comm.
Qed.

Lemma trimStart_digits s : all_digits s = true -> BigInt.trimStart s = s.
Proof.
  destruct s as [|c t]; [reflexivity|]. intros H. simpl in H.
  apply andb_true_iff in H as [Hc _].
  simpl. rewrite (digit_not_white_space c Hc). reflexivity.
Qed.

(** A digit string has no white space to trim. *)
Lemma trim_digits s : all_digits s = true -> BigInt.trim s = s.
Proof.
  intros H. unfold BigInt.trim. rewrite (trimStart_digits s H).
  rewrite trimStart_digits by (rewrite all_digits_rev; exact H).
  apply rev_involutive.
Qed.

(** On a digit string [BigInt] reads the decimal value: the string has no
    sign, and its second character is not the letter of a [0x], [0o] or
    [0b] literal. *)
Lemma of_string_digits s :
  s <> [] -> all_digits s = true -> BigInt.of_string s = digits_value s.
Proof.
  intros Hne H. unfold BigInt.of_string. rewrite (trim_digits s H).
  destruct s as [|c t]; [congruence|]. simpl in H.
  apply andb_true_iff in H as [Hc Ht].
  destruct (digit_not_sign c Hc) as [Hm Hp]. rewrite Hm, Hp. cbv zeta.
  fold (digits_value (c :: t)).
  destruct (Ascii.eqb c "0"); [|reflexivity].
  destruct t as [|p digits]; [reflexivity|]. simpl in Ht.
  apply andb_true_iff in Ht as [Hd _].
  destruct (digit_not_radix_prefix p Hd) as [Hx [Ho Hb]].
  rewrite Hx, Ho, Hb. reflexivity.
Qed.

Lemma toString_nonneg n :
  (0 <= n)%Z ->
  BigInt.toString n = BigInt.digits_of_uint (N.to_uint (Z.to_N n)).
Proof. destruct n; [reflexivity | reflexivity | lia]. Qed.

Lemma to_uint_not_nil n : N.to_uint n <> Decimal.Nil.
Proof.
  destruct n as [|p]; simpl; [discriminate|].
  apply DecimalPos.Unsigned.to_uint_nonnil.
Qed.

Lemma toString_nonneg_facts n :
  (0 <= n)%Z ->
  BigInt.toString n <> [] /\ all_digits (BigInt.toString n) = true /\
  digits_value (BigInt.toString n) = Some n.
Proof.
  intros Hn. rewrite (toString_nonneg n Hn). repeat split.
  - pose proof (to_uint_not_nil (Z.to_N n)).
    destruct (N.to_uint (Z.to_N n)); simpl; congruence.
  - apply digits_of_uint_all_digits.
  - unfold digits_value. rewrite uint_of_digits_of_uint. simpl.
    rewrite DecimalN.Unsigned.of_to. f_equal. lia.
Qed.

(** *** The trailing-zero expression on digit strings *)

Lemma all_zeros_repeat s : all_zeros s = true -> s = repeat "0"%char (length s).
Proof.
  induction s as [|c t IH]; [reflexivity|]. simpl. intros H.
  apply andb_true_iff in H as [Hc Ht]. apply Ascii.eqb_eq in Hc. subst c.
  f_equal. apply IH. exact Ht.
Qed.

Lemma all_zeros_with_dot a rest : all_zeros (a ++ "."%char :: rest) = false.
Proof.
  induction a as [|c t IH]; simpl; [reflexivity|].
  fold (all_zeros (t ++ "."%char :: rest)). rewrite IH. apply andb_false_r.
Qed.

Lemma dot_zeros_at_end_digit c t :
  is_digit c = true -> dot_zeros_at_end (c :: t) = all_zeros (c :: t).
Proof.
  intros H. unfold dot_zeros_at_end. rewrite (digit_not_dot c H).
  simpl. apply orb_false_r.
Qed.

Lemma strip_integer_part i rest :
  all_digits i = true ->
  strip_dot_zeros (i ++ "."%char :: rest) = i ++ strip_dot_zeros ("."%char :: rest).
Proof.
  induction i as [|c t IH]; intros H; [reflexivity|].
  simpl in H. apply andb_true_iff in H as [Hc Ht].
  change ((c :: t) ++ "."%char :: rest) with (c :: (t ++ "."%char :: rest)).
  cbn [strip_dot_zeros]. rewrite (dot_zeros_at_end_digit c _ Hc).
  change (c :: t ++ "."%char :: rest) with ((c :: t) ++ "."%char :: rest).
  rewrite all_zeros_with_dot. rewrite (IH Ht). reflexivity.
Qed.

Lemma strip_at_dot f :
  f <> [] ->
  strip_dot_zeros ("."%char :: f) =
  if all_zeros f then [] else "."%char :: strip_dot_zeros f.
Proof.
  intros Hf. cbn [strip_dot_zeros].
  replace (dot_zeros_at_end ("."%char :: f)) with (all_zeros f); [reflexivity|].
  unfold dot_zeros_at_end. destruct f as [|c t]; [congruence|]. reflexivity.
Qed.

Lemma strip_fraction f :
  all_digits f = true ->
  all_digits (strip_dot_zeros f) = true /\
  f = strip_dot_zeros f ++ repeat "0"%char (length f - length (strip_dot_zeros f)) /\
  (all_zeros f = true -> strip_dot_zeros f = []) /\
  (all_zeros f = false -> strip_dot_zeros f <> []).
Proof.
  induction f as [|c t IH]; intros H.
  - repeat split; simpl; congruence.
  - simpl in H. apply andb_true_iff in H as [Hc Ht].
    destruct (IH Ht) as [IH1 [IH2 _]].
    cbn [strip_dot_zeros]. rewrite (dot_zeros_at_end_digit c t Hc).
    destruct (all_zeros (c :: t)) eqn:Hz.
    + repeat split; try congruence.
      simpl length. rewrite Nat.sub_0_r. simpl app.
      apply (all_zeros_repeat (c :: t)). exact Hz.
    + repeat split; try congruence.
      * simpl. rewrite Hc. exact IH1.
      * simpl. f_equal. exact IH2.
Qed.

(** *** Splitting on the decimal point *)

Lemma split_dot_hit t : split dotsep ("."%char :: t) = [] :: split dotsep t.
Proof. reflexivity. Qed.

Lemma split_dot_digit c t :
  is_digit c = true -> split dotsep (c :: t) = cons_head c (split dotsep t).
Proof.
  intros H. unfold split. cbn [split_from].
  replace (starts_with dotsep (c :: t)) with false; [reflexivity|].
  unfold dotsep. simpl. rewrite Ascii.eqb_sym, (digit_not_dot c H). reflexivity.
Qed.

Lemma split_dot_digits s : all_digits s = true -> split dotsep s = [s].
Proof.
  induction s as [|c t IH]; intros H; [reflexivity|].
  simpl in H. apply andb_true_iff in H as [Hc Ht].
  rewrite (split_dot_digit c t Hc), (IH Ht). reflexivity.
Qed.

Lemma split_dot_app a b :
  all_digits a = true -> split dotsep (a ++ "."%char :: b) = a :: split dotsep b.
Proof.
  induction a as [|c t IH]; intros H; [apply split_dot_hit|].
  simpl in H. apply andb_true_iff in H as [Hc Ht].
  simpl app. rewrite (split_dot_digit c _ Hc), (IH Ht). reflexivity.
Qed.

(** *** The round trip *)

Lemma formatted_fixed_point i f :
  i <> [] -> f <> [] -> all_digits i = true -> all_digits f = true ->
  let out := or_else (strip_dot_zeros (i ++ js "." ++ f)) (js "0") in
  nth 0 (split dotsep out) [] = i /\
  slice_to (length f) (padEnd (length f) "0"%char (nth 1 (split dotsep out) [])) = f.
Proof.
  intros Hi Hf Di Df. change (js "." ++ f) with ("."%char :: f). cbv zeta.
  rewrite (strip_integer_part i f Di), (strip_at_dot f Hf).
  destruct (strip_fraction f Df) as [S1 [S2 [S3 S4]]].
  destruct (all_zeros f) eqn:Hz.
  - rewrite app_nil_r.
    replace (or_else i (js "0")) with i by (destruct i; [congruence | reflexivity]).
    rewrite (split_dot_digits i Di). simpl nth. split; [reflexivity|].
    unfold padEnd, slice_to. simpl. rewrite Nat.sub_0_r.
    rewrite <- (all_zeros_repeat f Hz). rewrite firstn_all. reflexivity.
  - replace (or_else (i ++ "."%char :: strip_dot_zeros f) (js "0"))
      with (i ++ "."%char :: strip_dot_zeros f)
      by (destruct i; [congruence | reflexivity]).
    rewrite (split_dot_app i _ Di), (split_dot_digits _ S1). simpl nth.
    split; [reflexivity|].
    unfold padEnd, slice_to. rewrite <- S2. apply firstn_all.
Qed.

(** C7: for every non-negative integer [raw] and every number of decimals
    [d], parsing the formatted amount gives [raw] back:
    [parseUnits(formatUnits(raw, d), d) = raw]. *)
Theorem parseUnits_formatUnits_roundtrip (raw : Z) (d : nat) :
  (0 <= raw)%Z -> parseUnits (formatUnits raw d) d = Some raw.
Proof.
  intros Hraw.
  destruct (toString_nonneg_facts raw Hraw) as [Hne [Hdig Hval]].
  unfold formatUnits. destruct (Nat.eqb d 0) eqn:Hd.
  - apply Nat.eqb_eq in Hd. subst d. unfold parseUnits, parseUnits_literal.
    change (split (js ".") (BigInt.toString raw))
      with (split dotsep (BigInt.toString raw)).
    rewrite (split_dot_digits _ Hdig). simpl. rewrite app_nil_r.
    rewrite (of_string_digits _ Hne Hdig). exact Hval.
  - apply Nat.eqb_neq in Hd.
    set (s := BigInt.toString raw) in *.
    set (pad := padStart (d + 1) "0"%char s).
    set (transition := length pad - d).
    assert (Hlen : d + 1 <= length pad).
    { unfold pad, padStart. rewrite length_app, repeat_length. lia. }
    assert (Hpad_digits : all_digits pad = true).
    { unfold pad, padStart, all_digits. rewrite forallb_app.
      fold (all_digits s). rewrite Hdig, andb_true_r.
      apply forallb_forall. intros x Hx. apply repeat_spec in Hx. subst x.
      reflexivity. }
    pose proof (firstn_skipn transition pad) as Hcat.
    assert (Di : all_digits (slice_to transition pad) = true /\
                 all_digits (slice_from transition pad) = true).
    { unfold slice_to, slice_from. apply andb_true_iff.
      unfold all_digits in *. rewrite <- forallb_app, Hcat. exact Hpad_digits. }
    destruct Di as [Di Df].
    assert (Lf : length (slice_from transition pad) = d).
    { unfold slice_from, transition. rewrite length_skipn. lia. }
    assert (Li : length (slice_to transition pad) = transition).
    { unfold slice_to, transition. rewrite length_firstn. lia. }
    assert (Hi : slice_to transition pad <> []).
    { intros E. rewrite E in Li. unfold transition in Li. simpl in Li. lia. }
    assert (Hf : slice_from transition pad <> []).
    { intros E. rewrite E in Lf. simpl in Lf. lia. }
    destruct (formatted_fixed_point _ _ Hi Hf Di Df) as [P0 P1].
    cbv zeta in P0, P1. rewrite Lf in P1.
    unfold parseUnits, parseUnits_literal. change (split (js ".")) with (split dotsep).
    rewrite P0, P1. unfold slice_to, slice_from. rewrite Hcat.
    rewrite of_string_digits; [| | exact Hpad_digits].
    + unfold pad, padStart. rewrite digits_value_zeros. exact Hval.
    + intros E. rewrite E in Hlen. simpl in Hlen. lia.
Qed.

Lemma parseUnits_formatUnits_witness :
  parseUnits (formatUnits 1500000 6) 6 = Some 1500000%Z.
Proof. apply parseUnits_formatUnits_roundtrip. lia. Defined.

(** *** Rounding of a quotient *)

Lemma round_half_up_integer (q : Q) (n : Z) :
  Qeq q (inject_Z n) -> BN.round_half_up q = n.
Proof.
  intros E. unfold BN.round_half_up.
  assert (F1 : Qfloor (Qplus q (1 # 2)) = n).
  { rewrite E. unfold Qfloor, Qplus, inject_Z. simpl.
    symmetry. apply Z.div_unique with (r := 1%Z); lia. }
  assert (F2 : Qfloor (Qplus (Qopp q) (1 # 2)) = (- n)%Z).
  { rewrite E. unfold Qfloor, Qplus, Qopp, inject_Z. simpl.
    symmetry. apply Z.div_unique with (r := 1%Z); lia. }
  destruct (Qcompare q 0); rewrite ?F1, ?F2; lia.
Qed.

Lemma scale_nonzero : ~ Qeq (inject_Z (10 ^ BN.DECIMAL_PLACES)) 0.
Proof. unfold Qeq. simpl. lia. Qed.

(** When the quotient has at most [DECIMAL_PLACES] places, division is exact. *)
Lemma div_dp_exact (a b : Qc) (n : Z) :
  Qeq (Qmult (Qdiv a b) (inject_Z (10 ^ BN.DECIMAL_PLACES))) (inject_Z n) ->
  BN.div_dp a b = Qcdiv a b.
Proof.
  intros E. unfold BN.div_dp. rewrite (round_half_up_integer _ n E).
  apply Qc_is_canon. unfold Qcdiv, Qcmult, Qcinv. cbn [this Q2Qc].
  rewrite !Qred_correct. rewrite <- E. unfold Qdiv.
  generalize (Qmult a (Qinv b)). intros x.
  rewrite <- Qmult_assoc, Qmult_inv_r, Qmult_1_r; [reflexivity|].
  exact scale_nonzero.
Qed.

(** In general the rounded quotient is within half a unit of the last
    place of the exact one. *)
Lemma floor_half_close (q : Q) :
  Qle (Qabs (Qminus (inject_Z (Qfloor (Qplus q (1 # 2)))) q)) (1 # 2).
Proof.
  pose proof (Qfloor_le (Qplus q (1 # 2))) as L.
  pose proof (Qlt_floor (Qplus q (1 # 2))) as U.
  rewrite inject_Z_plus in U.
  remember (Qfloor (Qplus q (1 # 2))) as k eqn:Hk. clear Hk.
  destruct q as [a b].
  apply Qabs_Qle_condition; split;
    unfold Qle, Qlt, Qminus, Qplus, Qopp, inject_Z in *; simpl in *;
    rewrite ?Pos2Z.inj_mul in *; nia.
Qed.

Lemma round_half_up_close (q : Q) :
  Qle (Qabs (Qminus (inject_Z (BN.round_half_up q)) q)) (1 # 2).
Proof.
  unfold BN.round_half_up.
  destruct (Qcompare q 0) eqn:C; try apply floor_half_close.
  pose proof (floor_half_close (Qopp q)) as H.
  rewrite inject_Z_opp.
  setoid_replace
    (Qminus (Qopp (inject_Z (Qfloor (Qplus (Qopp q) (1 # 2))))) q)
    with (Qopp (Qminus (inject_Z (Qfloor (Qplus (Qopp q) (1 # 2)))) (Qopp q)))
    by ring.
  rewrite Qabs_opp. exact H.
Qed.

Lemma div_dp_close (a b : Qc) :
  Qle (Qabs (Qminus (BN.div_dp a b) (Qdiv a b)))
      (1 # (2 * 10 ^ 20)).
Proof.
  unfold BN.div_dp. cbn [this Q2Qc]. rewrite Qred_correct.
  generalize (Qdiv a b). intros x.
  set (S := inject_Z (10 ^ BN.DECIMAL_PLACES)).
  pose proof (round_half_up_close (Qmult x S)) as H.
  set (r := inject_Z (BN.round_half_up (Qmult x S))) in *.
  assert (HS : Qlt 0 S) by reflexivity.
  setoid_replace (Qminus (Qdiv r S) x)
    with (Qmult (Qminus r (Qmult x S)) (Qinv S))
    by (field; exact scale_nonzero).
  rewrite Qabs_Qmult.
  rewrite (Qabs_pos (Qinv S)) by (apply Qlt_le_weak, Qinv_lt_0_compat; exact HS).
  setoid_replace (1 # (2 * 10 ^ 20))%Q with (Qmult (1 # 2) (Qinv S)) by reflexivity.
  apply Qmult_le_compat_r; [exact H|].
  apply Qlt_le_weak, Qinv_lt_0_compat. exact HS.
Qed.

(** *** Compounded borrow *)

Lemma eq_zero_false (i : Qc) :
  i <> Q2Qc 0 -> BN.eq (BN.Fin i) BN.zero = false /\ BN.is_zero i = false.
Proof.
  intros Hi. unfold BN.eq, BN.zero, BN.is_zero.
  destruct (Qccompare i (Q2Qc 0)) eqn:C; try (split; reflexivity).
  apply Qceq_alt in C. contradiction.
Qed.

Lemma calculateCompoundedBorrow_finite (r i c : Qc) :
  i <> Q2Qc 0 ->
  calculateCompoundedBorrow (BN.Fin r) (BN.Fin i) (BN.Fin c)
  = BN.Fin (Qcmult r (BN.div_dp c i)).
Proof.
  intros Hi. destruct (eq_zero_false i Hi) as [E Hz].
  unfold calculateCompoundedBorrow. rewrite E. simpl. rewrite Hz. reflexivity.
Qed.

(** C4: the compounded amount is the raw amount unchanged when the origin
    rate is zero, and otherwise [raw x (current / origin)], computed as
    the source does: the quotient first, as a [BigNumber] division (for
    finite values, the exact quotient rounded at the 20th decimal place,
    hence the exact one when it has at most 20 places), then the exact
    product.  Raw 1e18 with rates 1e18 and 1.05e18 gives 1.05e18. *)
Theorem calculateCompoundedBorrow_formula (raw init cur : BN.t) :
  (BN.eq init BN.zero = true ->
   calculateCompoundedBorrow raw init cur = raw) /\
  (BN.eq init BN.zero = false ->
   calculateCompoundedBorrow raw init cur = BN.times raw (BN.div cur init)) /\
  (forall r i c : Qc,
     raw = BN.Fin r -> init = BN.Fin i -> cur = BN.Fin c -> i <> Q2Qc 0 ->
     calculateCompoundedBorrow raw init cur = BN.Fin (Qcmult r (BN.div_dp c i)) /\
     Qle (Qabs (Qminus (BN.div_dp c i) (Qdiv c i))) (1 # (2 * 10 ^ 20)) /\
     (forall n : Z,
        Qeq (Qmult (Qdiv c i) (inject_Z (10 ^ 20))) (inject_Z n) ->
        calculateCompoundedBorrow raw init cur = BN.Fin (Qcmult r (Qcdiv c i)))) /\
  calculateCompoundedBorrow
    (BN.of_Z (10 ^ 18)) (BN.of_Z (10 ^ 18)) (BN.of_Z (105 * 10 ^ 16))
  = BN.of_Z (105 * 10 ^ 16).
Proof.
  split; [unfold calculateCompoundedBorrow; intros H; rewrite H; reflexivity|].
  split; [unfold calculateCompoundedBorrow; intros H; rewrite H; reflexivity|].
  split.
  - intros r i c -> -> -> Hi.
    rewrite (calculateCompoundedBorrow_finite r i c Hi).
    split; [reflexivity|]. split; [apply div_dp_close|].
    intros n Hn. rewrite (div_dp_exact c i n Hn). reflexivity.
  - unfold BN.of_Z. rewrite calculateCompoundedBorrow_finite.
    + f_equal. apply Qc_is_canon. vm_compute. reflexivity.
    + intros H. apply (f_equal this) in H. vm_compute in H. discriminate.
Qed.

(** *** Health factor *)

(** C5 (amended): the health factor is plus infinity whenever the
    weighted borrows are zero; for a finite liquidation threshold it is
    plus infinity exactly when the weighted borrows are zero; and for a
    finite threshold [t] and finite weighted borrows [w] other than zero
    it is the quotient [t / w] rounded at the 20th decimal place: a
    finite number within [5e-21] of the exact quotient, and the exact
    quotient when that has at most 20 decimal places. *)
Theorem healthFactor_formula (ob : ParsedObligation) :
  let m := calculatePortfolioMetrics ob in
  (BN.eq (weightedBorrowsUsd ob) BN.zero = true ->
   healthFactor m = BN.infinity) /\
  (BN.is_finite (unhealthyBorrowValueUsd ob) = true ->
   (healthFactor m = BN.infinity <->
    BN.eq (weightedBorrowsUsd ob) BN.zero = true)) /\
  (forall t w : Qc,
     unhealthyBorrowValueUsd ob = BN.Fin t -> weightedBorrowsUsd ob = BN.Fin w ->
     w <> Q2Qc 0 ->
     exists hf : Qc,
       healthFactor m = BN.Fin hf /\
       Qle (Qabs (Qminus hf (Qdiv t w))) (1 # (2 * 10 ^ 20)) /\
       (forall n : Z,
          Qeq (Qmult (Qdiv t w) (inject_Z (10 ^ 20))) (inject_Z n) ->
          hf = Qcdiv t w)).
Proof.
  cbv zeta. unfold calculatePortfolioMetrics. cbn [healthFactor].
  split; [intros H; rewrite H; reflexivity|].
  split.
  - intros Hfin. split; [|intros H; rewrite H; reflexivity].
    destruct (BN.eq (weightedBorrowsUsd ob) BN.zero) eqn:E; [reflexivity|].
    destruct (unhealthyBorrowValueUsd ob) as [| |t]; try discriminate.
    destruct (weightedBorrowsUsd ob) as [| |w]; try discriminate.
    assert (Hz : BN.is_zero w = false).
    { unfold BN.eq, BN.zero in E. unfold BN.is_zero.
      destruct (Qccompare w (Q2Qc 0)); congruence. }
    cbn [BN.div]. rewrite Hz. discriminate.
  - intros t w -> -> Hw. destruct (eq_zero_false w Hw) as [E Hz].
    rewrite E. simpl. rewrite Hz.
    exists (BN.div_dp t w). split; [reflexivity|].
    split; [apply div_dp_close|].
    intros n Hn. apply (div_dp_exact t w n Hn).
Qed.

(** At a threshold of 1200 USD over weighted borrows of 500 USD the health
    factor is 2.4. *)
Lemma healthFactor_formula_witness :
  healthFactor (calculatePortfolioMetrics two_deposit_obligation)
  = BN.Fin (Q2Qc (12 # 5)).
Proof.
  destruct (proj2 (proj2 (healthFactor_formula two_deposit_obligation))
              (Q2Qc (inject_Z 1200)) (Q2Qc (inject_Z 500)) eq_refl eq_refl)
    as [hf [H [_ Hexact]]].
  - intros E. apply (f_equal this) in E. vm_compute in E. discriminate.
  - rewrite H. f_equal.
    rewrite (Hexact 240000000000000000000%Z) by (vm_compute; reflexivity).
    apply Qc_is_canon. vm_compute. reflexivity.
Defined.

(** C5 as stated fails for a liquidation threshold that is infinite: the
    quotient by weighted borrows of 1 is plus infinity, though the
    weighted borrows are not zero. *)
Lemma healthFactor_infinite_with_borrows :
  let ob := {| netValueUsd := BN.infinity;
               obl_depositedAmountUsd := BN.infinity;
               borrowedAmountUsd := BN.of_Z 1;
               borrowLimitUsd := BN.infinity;
               unhealthyBorrowValueUsd := BN.infinity;
               weightedBorrowsUsd := BN.of_Z 1;
               deposits := [] |} in
  healthFactor (calculatePortfolioMetrics ob) = BN.infinity /\
  BN.eq (weightedBorrowsUsd ob) BN.zero = false.
Proof. split; vm_compute; reflexivity. Qed.

(** *** Liquidation price *)

Lemma calculateLiquidationPrice_cases ct amt thr ob :
  let numerator :=
    BN.minus (weightedBorrowsUsd ob) (otherCollateralWeighted ct (deposits ob)) in
  let denominator := BN.times amt thr in
  (BN.lte numerator BN.zero = true ->
   calculateLiquidationPrice ct amt thr ob = Some BN.zero) /\
  (BN.lte numerator BN.zero = false -> BN.eq denominator BN.zero = true ->
   calculateLiquidationPrice ct amt thr ob = None) /\
  (BN.lte numerator BN.zero = false -> BN.eq denominator BN.zero = false ->
   calculateLiquidationPrice ct amt thr ob = Some (BN.div numerator denominator)).
Proof.
  cbv zeta. unfold calculateLiquidationPrice. repeat split.
  - intros H. rewrite H. reflexivity.
  - intros H1 H2. rewrite H1, H2. reflexivity.
  - intros H1 H2. rewrite H1, H2. reflexivity.
Qed.

(** C2: on a position whose other collateral covers the borrows, the
    numerator for the USDC deposit is 500 - 800 = -300, and
    [calculateLiquidationPrice] answers with the number zero, where the
    claim asks for "no liquidation price" and never 0. *)
Theorem calculateLiquidationPrice_covered_deposit_is_zero :
  BN.lte
    (BN.minus (weightedBorrowsUsd two_deposit_obligation)
       (otherCollateralWeighted USDC_COIN_TYPE (deposits two_deposit_obligation)))
    BN.zero = true /\
  calculateLiquidationPrice USDC_COIN_TYPE (BN.of_Z 500) (pct_ratio 80)
    two_deposit_obligation = Some BN.zero.
Proof.
  assert (H : BN.lte
    (BN.minus (weightedBorrowsUsd two_deposit_obligation)
       (otherCollateralWeighted USDC_COIN_TYPE (deposits two_deposit_obligation)))
    BN.zero = true) by (vm_compute; reflexivity).
  split; [exact H|].
  apply (proj1 (calculateLiquidationPrice_cases _ _ _ _)). exact H.
Qed.

(** The single-deposit example: close LTV 0.8, weighted borrows 500, so
    the price is 500 / (amount x 0.8); with 250 units that is 2.5. *)
Example calculateLiquidationPrice_single_deposit :
  calculateLiquidationPrice SUI_COIN_TYPE (BN.of_Z 250) (pct_ratio 80)
    {| netValueUsd := BN.of_Z 500;
       obl_depositedAmountUsd := BN.of_Z 1000;
       borrowedAmountUsd := BN.of_Z 500;
       borrowLimitUsd := BN.of_Z 700;
       unhealthyBorrowValueUsd := BN.of_Z 800;
       weightedBorrowsUsd := BN.of_Z 500;
       deposits :=
         [ {| dep_coinType := SUI_COIN_TYPE;
              depositedAmount := BN.of_Z 250;
              depositedAmountUsd := BN.of_Z 1000;
              dep_config := {| openLtvPct := 70; closeLtvPct := 80 |} |} ] |}
  = Some (BN.Fin (Q2Qc (5 # 2))).
Proof.
  match goal with |- ?l = _ => 
    let v := eval vm_compute in (match l with Some (BN.Fin q) => Some (this q) | _ => None end) in
    assert (E : (match l with Some (BN.Fin q) => Some (this q) | _ => None end) = v) by (vm_compute; reflexivity)
  end.
  destruct (calculateLiquidationPrice _ _ _ _) as [[| |q]|]; try discriminate.
  inversion E as [E']. f_equal. f_equal. apply Qc_is_canon. rewrite E'. reflexivity.
Qed.

(** *** The best quote *)

Lemma Number_of_integer_safe (n : Z) :
  (Z.abs n < 2 ^ 53)%Z -> Number_of_integer n = n.
Proof.
  intros H. unfold Number_of_integer.
  assert (L : (Z.log2 (Z.abs n) < 53)%Z).
  { destruct (Z.eq_dec (Z.abs n) 0) as [E|E].
    - rewrite E. simpl. lia.
    - apply Z.log2_lt_pow2; lia. }
  destruct (Z.leb_spec (Z.log2 (Z.abs n) - 52) 0); [reflexivity | lia].
Qed.

(** Sorting a list that is not empty puts first the first quote whose
    output, as a double, is greatest. *)
Lemma sort_by_amountOut_first_best (qs : list Quote) :
  qs <> [] ->
  exists q rest before after,
    sort_by_amountOut qs = q :: rest /\
    qs = before ++ q :: after /\
    (forall x, In x before ->
       (Number_of_integer (amountOut x) < Number_of_integer (amountOut q))%Z) /\
    (forall x, In x after ->
       (Number_of_integer (amountOut x) <= Number_of_integer (amountOut q))%Z).
Proof.
  induction qs as [|a qs IH]; [congruence|]. intros _.
  destruct qs as [|b qs'].
  - exists a, [], [], []. repeat split; intros x [].
  - destruct IH as [h [t [before [after [Hs [E [Hb Ha]]]]]]]; [discriminate|].
    change (sort_by_amountOut (a :: b :: qs'))
      with (insert_by_amountOut a (sort_by_amountOut (b :: qs'))).
    rewrite Hs. cbn [insert_by_amountOut].
    destruct (Z.leb (Number_of_integer (amountOut h))
                    (Number_of_integer (amountOut a))) eqn:Hle.
    + apply Z.leb_le in Hle.
      exists a, (h :: t), [], (b :: qs'). repeat split; [intros x [] |].
      intros x Hx. rewrite E in Hx. apply in_app_or in Hx.
      destruct Hx as [Hx|[Hx|Hx]].
      * specialize (Hb x Hx). lia.
      * subst x. exact Hle.
      * specialize (Ha x Hx). lia.
    + apply Z.leb_gt in Hle.
      exists h, (insert_by_amountOut a t), (a :: before), after.
      rewrite E. repeat split; [|exact Ha].
      intros x [Hx|Hx]; [subst x; exact Hle | apply Hb, Hx].
Qed.

(** Where the outputs are doubles themselves, the order is that of the
    outputs. *)
Lemma first_best_safe (qs before after : list Quote) (q : Quote) :
  qs = before ++ q :: after ->
  (forall x, In x qs -> (Z.abs (amountOut x) < 2 ^ 53)%Z) ->
  (forall x, In x before ->
     (Number_of_integer (amountOut x) < Number_of_integer (amountOut q))%Z) ->
  (forall x, In x after ->
     (Number_of_integer (amountOut x) <= Number_of_integer (amountOut q))%Z) ->
  (forall x, In x before -> (amountOut x < amountOut q)%Z) /\
  (forall x, In x after -> (amountOut x <= amountOut q)%Z).
Proof.
  intros E Hsafe Hb Ha.
  assert (Hq : Number_of_integer (amountOut q) = amountOut q).
  { apply Number_of_integer_safe, Hsafe. rewrite E.
    apply in_or_app. right. left. reflexivity. }
  split; intros x Hx.
  - specialize (Hb x Hx). rewrite Hq in Hb.
    rewrite Number_of_integer_safe in Hb; [exact Hb|].
    apply Hsafe. rewrite E. apply in_or_app. left. exact Hx.
  - specialize (Ha x Hx). rewrite Hq in Ha.
    rewrite Number_of_integer_safe in Ha; [exact Ha|].
    apply Hsafe. rewrite E. apply in_or_app. right. right. exact Hx.
Qed.

(** Two outputs that differ beyond the precision of a double compare as
    equal, and the quotes keep their order: the first one is taken, though
    the second one gives more. *)
Example sort_by_amountOut_beyond_safe_integers :
  sort_by_amountOut
    [ {| amountIn := 1; amountOut := 2 ^ 53 |};
      {| amountIn := 2; amountOut := 2 ^ 53 + 1 |} ]
  = [ {| amountIn := 1; amountOut := 2 ^ 53 |};
      {| amountIn := 2; amountOut := 2 ^ 53 + 1 |} ].
Proof. vm_compute. reflexivity. Qed.

(** *** The deleverage estimate *)

Section EstimateFacts.

Variable env : Collaborators.
Variable position : PositionInfo.

Let D := amount (debt position).
Let W := amount (collateral position).

(** C6: when the router answers the quote for the full collateral [W]
    with at least one route and the price service answers, the estimate
    is sized from the quote [q] that the code takes, the first one of the
    list whose output, compared as a double, is greatest (the first one
    with the greatest output when the outputs are below 2^53): for a
    non-zero output of [q] it resolves with flash loan [D * 1005 / 1000],
    repayment = flash loan + fee, swap input
    [min W (targetOutput * q.amountIn / q.amountOut)] where
    [targetOutput = repayment * 102 / 100], and kept collateral
    [W - swap input]; the divisions are those of [bigint]. *)
Theorem calculateDeleverageEstimate_sizes (qs : list Quote) :
  quote env (BigInt.toString W) (coinType (collateral position)) USDC_COIN_TYPE
    = Resolved qs ->
  qs <> [] ->
  getTokenPrice env (coinType (collateral position)) = Resolved tt ->
  exists q before after,
    qs = before ++ q :: after /\
    (forall x, In x before ->
       (Number_of_integer (amountOut x) < Number_of_integer (amountOut q))%Z) /\
    (forall x, In x after ->
       (Number_of_integer (amountOut x) <= Number_of_integer (amountOut q))%Z) /\
    ((forall x, In x qs -> (Z.abs (amountOut x) < 2 ^ 53)%Z) ->
     (forall x, In x before -> (amountOut x < amountOut q)%Z) /\
     (forall x, In x after -> (amountOut x <= amountOut q)%Z)) /\
    let flashLoan := Z.quot (D * 1005) 1000 in
    let repayment := (flashLoan + calculateFee env flashLoan)%Z in
    let targetOutput := Z.quot (repayment * 102) 100 in
    let requiredInput := Z.quot (targetOutput * amountIn q) (amountOut q) in
    (amountOut q <> 0%Z ->
     ((repayment < amountOut q)%Z -> amountIn q <> 0%Z) ->
     exists e,
       calculateDeleverageEstimate env position = Resolved e /\
       flashLoanUsdc e = flashLoan /\
       flashLoanFee e = calculateFee env flashLoan /\
       totalRepayment e = repayment /\
       swapAmount e = Z.min W requiredInput /\
       keepCollateral e = (W - swapAmount e)%Z).
Proof.
  intros Hq Hqs Hprice.
  destruct (sort_by_amountOut_first_best qs Hqs)
    as [q [rest [before [after [Hsort [E [Hb Ha]]]]]]].
  exists q, before, after.
  split; [exact E|]. split; [exact Hb|]. split; [exact Ha|].
  split; [intros Hsafe; exact (first_best_safe qs before after q E Hsafe Hb Ha)|].
  cbv zeta. intros Hout Hin.
  unfold calculateDeleverageEstimate. fold D W. rewrite Hq. cbn [bind].
  assert (Hne : Nat.eqb (length qs) 0 = false).
  { destruct qs; [congruence | reflexivity]. }
  rewrite Hne, Hsort.
  unfold bigint_div.
  apply Z.eqb_neq in Hout. rewrite Hout. cbn [bind].
  rewrite Hprice.
  set (flashLoan := Z.quot (D * 1005) 1000) in *.
  set (repayment := (flashLoan + calculateFee env flashLoan)%Z) in *.
  set (required := Z.quot (Z.quot (repayment * 102) 100 * amountIn q) (amountOut q)).
  assert (Hmin : (if Z.ltb W required then W else required) = Z.min W required).
  { destruct (Z.ltb_spec W required); lia. }
  destruct (Z.ltb repayment (amountOut q)) eqn:Hprofit.
  - apply Z.ltb_lt in Hprofit. apply Hin in Hprofit.
    apply Z.eqb_neq in Hprofit. rewrite Hprofit. cbn [bind].
    eexists; split; [reflexivity|]. cbn. rewrite Hmin.
    repeat split.
  - cbn [bind].
    eexists; split; [reflexivity|]. cbn. rewrite Hmin.
    repeat split.
Qed.

End EstimateFacts.

Lemma calculateDeleverageEstimate_sizes_witness :
  exists e,
    calculateDeleverageEstimate example_env (example_position 1000000000 1000000)
      = Resolved e /\
    flashLoanUsdc e = 1005000%Z /\
    flashLoanFee e = 1005%Z /\
    totalRepayment e = 1006005%Z /\
    swapAmount e = Z.min 1000000000 205225000 /\
    keepCollateral e = (1000000000 - swapAmount e)%Z.
Proof.
  destruct (calculateDeleverageEstimate_sizes example_env
              (example_position 1000000000 1000000)
              [ {| amountIn := 1000000000; amountOut := 5000000 |} ]
              eq_refl ltac:(discriminate) eq_refl)
    as [q [before [after [E [_ [_ [_ H]]]]]]].
  assert (Eq : q = {| amountIn := 1000000000; amountOut := 5000000 |}).
  { destruct before as [|b before].
    - inversion E. reflexivity.
    - inversion E as [[Eb E']]. destruct before; discriminate. }
  subst q. apply H.
  - discriminate.
  - intros _. discriminate.
Defined.

(** The builder goes on to the steps whenever the estimate and the
    collaborators answer: nothing compares the quoted output with the
    repayment. *)
Lemma buildDeleverageTransaction_plan env tx user position e qs best rest :
  calculateDeleverageEstimate env position = Resolved e ->
  refreshOracles env [coinType (collateral position); USDC_COIN_TYPE] user
    = Resolved tt ->
  repay env USDC_COIN_TYPE user = Resolved tt ->
  withdraw env (coinType (collateral position))
    (BigInt.toString (amount (collateral position))) user = Resolved tt ->
  quote env (BigInt.toString (swapAmount e)) (coinType (collateral position))
    USDC_COIN_TYPE = Resolved qs ->
  sort_by_amountOut qs = best :: rest ->
  swap env best user = Resolved tt ->
  buildDeleverageTransaction env tx user position =
  Resolved
    (tx ++
     [ BorrowFlashLoan (flashLoanUsdc e) (js "usdc");
       RefreshOracles [coinType (collateral position); USDC_COIN_TYPE] user;
       RepayDebt USDC_COIN_TYPE LoanCoin user;
       WithdrawCollateral (coinType (collateral position))
         (BigInt.toString (amount (collateral position))) user;
       SplitCoins WithdrawnCoin (swapAmount e) CoinToSwap;
       SwapCoins best user CoinToSwap 100;
       SplitCoins SwappedUsdc (totalRepayment e) FlashRepayment;
       RepayFlashLoan FlashRepayment (js "usdc");
       TransferObjects [WithdrawnCoin; SwappedUsdc; LoanCoin] user ]).
Proof.
  intros He Hr Hp Hw Hq Hs Hsw.
  unfold buildDeleverageTransaction.
  rewrite He. cbn [bind]. rewrite Hr. cbn [bind]. rewrite Hp. cbn [bind].
  rewrite Hw. cbn [bind]. rewrite Hq. cbn [bind].
  assert (Hne : Nat.eqb (length qs) 0 = false).
  { destruct qs; [discriminate | reflexivity]. }
  rewrite Hne, Hs, Hsw. cbn [bind].
  rewrite <- !app_assoc. reflexivity.
Qed.

(** C1: a position whose whole collateral (0.1 SUI) swaps to 0.5 USDC
    while the flash loan needs 1.006005 USDC back.  The claim asks the
    builder to fail with InsufficientCollateral; it resolves with a
    complete plan instead: all the collateral is swapped, and the plan
    splits the repayment of 1006005 off the 500000 that the swap gives. *)
Theorem buildDeleverageTransaction_underwater_emits_plan :
  sort_by_amountOut [ {| amountIn := 100000000; amountOut := 500000 |} ]
    = [ {| amountIn := 100000000; amountOut := 500000 |} ] /\
  calculateDeleverageEstimate example_env (example_position 100000000 1000000)
    = Resolved {| flashLoanUsdc := 1005000;
                  flashLoanFee := 1005;
                  totalRepayment := 1006005;
                  swapAmount := 100000000;
                  keepCollateral := 0;
                  estimatedUsdcProfit := 0 |} /\
  buildDeleverageTransaction example_env [] example_user
    (example_position 100000000 1000000)
  = Resolved
      [ BorrowFlashLoan 1005000 (js "usdc");
        RefreshOracles [SUI_COIN_TYPE; USDC_COIN_TYPE] example_user;
        RepayDebt USDC_COIN_TYPE LoanCoin example_user;
        WithdrawCollateral SUI_COIN_TYPE (js "100000000") example_user;
        SplitCoins WithdrawnCoin 100000000 CoinToSwap;
        SwapCoins {| amountIn := 100000000; amountOut := 500000 |}
          example_user CoinToSwap 100;
        SplitCoins SwappedUsdc 1006005 FlashRepayment;
        RepayFlashLoan FlashRepayment (js "usdc");
        TransferObjects [WithdrawnCoin; SwappedUsdc; LoanCoin] example_user ].
Proof. repeat split; vm_compute; reflexivity. Qed.

(** *** Maximum withdrawable amount *)

(** C3: for a deposit of 1 SUI with an open LTV of 0, the claim asks for
    the full deposit whatever the debt; with debt at the borrow limit
    [getMaxWithdrawableAmount] answers "0" (and "1" without debt). *)
Theorem getMaxWithdrawableAmount_zero_ltv_with_debt :
  getMaxWithdrawableAmount example_reserves (example_adapter 1) example_user
    (js "0x2::sui::SUI") = Resolved (js "0") /\
  getMaxWithdrawableAmount example_reserves (example_adapter 0) example_user
    (js "0x2::sui::SUI") = Resolved (js "1").
Proof. split; vm_compute; reflexivity. Qed.

Lemma excess_not_positive (allowed borrowed : Z) :
  (allowed <= borrowed)%Z ->
  Num.lteb
    (Qcminus (Qcdiv (Num.of_bigint allowed) (Num.pow10 18))
             (Qcdiv (Num.of_bigint borrowed) (Num.pow10 18)))
    (Q2Qc 0) = true.
Proof.
  intros H. unfold Num.lteb.
  match goal with |- context [Qccompare ?a ?b] =>
    assert (L : Qcle a b);
      [|pose proof (proj1 (Qcle_alt a b) L) as L';
        destruct (Qccompare a b);
        [reflexivity | reflexivity | exfalso; apply L'; reflexivity]]
  end.
  unfold Qcle, Qcminus, Qcplus, Qcopp, Qcdiv, Qcmult, Qcinv, Num.of_bigint, Num.pow10.
  cbn [this Q2Qc]. rewrite !Qred_correct.
  change (inject_Z (10 ^ Z.of_nat 18)) with (inject_Z 1000000000000000000).
  unfold Qle, Qplus, Qopp, Qmult, Qinv, inject_Z. simpl. lia.
Qed.

(** With debt on the obligation and no borrow capacity left, the answer
    is "0" whatever the open LTV of the asset is: the test on the excess
    comes before the test on the LTV. *)
Lemma getMaxWithdrawableAmount_without_excess table a address ct id ids ob d :
  adapter_initialized a = true ->
  getObligationOwnerCaps a address = Resolved (id :: ids) ->
  getObligation a id = Resolved (Some ob) ->
  find (fun d => jstring_eqb (normalizeCoinType (rd_coinType_name d))
                             (normalizeCoinType ct))
       (raw_deposits ob) = Some d ->
  raw_borrows_length ob <> 0 ->
  (allowedBorrowValueUsd ob <= borrowedValueUsd ob)%Z ->
  getMaxWithdrawableAmount table a address ct = Resolved (js "0").
Proof.
  intros Hi Hc Ho Hd Hb Hx. unfold getMaxWithdrawableAmount, adapter_ensureInitialized.
  rewrite Hi. cbn [negb bind]. rewrite Hc. cbn [bind]. rewrite Ho. cbn [bind].
  rewrite Hd. apply Nat.eqb_neq in Hb. rewrite Hb.
  rewrite (excess_not_positive _ _ Hx). reflexivity.
Qed.

(** *** Sessions *)

Lemma userAddress_set sdk address :
  SDK._userAddress sdk = Some address -> address <> [] ->
  SDK.userAddress sdk = Resolved address.
Proof.
  intros H Hne. unfold SDK.userAddress. rewrite H.
  destruct address; [congruence | reflexivity].
Qed.

Lemma ensureInitialized_ok sdk :
  SDK.initialized sdk = true -> SDK.ensureInitialized sdk = Resolved tt.
Proof. intros H. unfold SDK.ensureInitialized. rewrite H. reflexivity. Qed.

(** A session that [initialize] has set up with a key pair passes both
    guards of the facade. *)
Lemma initialize_with_keypair out kp sdk' :
  SDK.initialize out SDK.create (inl kp) = (Resolved tt, sdk') ->
  SDK.initialized sdk' = true /\
  SDK.keypair sdk' = Some kp /\
  SDK._userAddress sdk' = Some (toSuiAddress kp) /\
  toSuiAddress kp <> [] /\
  SDK.protocols sdk' Suilend = Some (new_SuilendAdapter out) /\
  SDK.protocols sdk' Navi = Some (new_NaviAdapter out).
Proof.
  unfold SDK.initialize.
  destruct (initialize_adapter (new_SuilendAdapter out)); [|discriminate].
  destruct (initialize_adapter (new_NaviAdapter out)); [|discriminate].
  intros H. inversion H; subst. cbn. repeat split. discriminate.
Qed.

Lemma initialize_with_address out address sdk' :
  SDK.initialize out SDK.create (inr address) = (Resolved tt, sdk') ->
  SDK.initialized sdk' = true /\
  SDK.keypair sdk' = None /\
  SDK._userAddress sdk' = Some address.
Proof.
  unfold SDK.initialize.
  destruct (initialize_adapter (new_SuilendAdapter out)); [|discriminate].
  destruct (initialize_adapter (new_NaviAdapter out)); [|discriminate].
  intros H. inversion H; subst. cbn. repeat split.
Qed.

(** *** Aggregated portfolio *)

Lemma fetch_entry sdk address p :
  exists x,
    (fetched <-
       try_catch
         (match SDK.protocols sdk p with
          | Some adapter =>
              portfolio <- getAccountPortfolio adapter address ;;
              Resolved (Some portfolio)
          | None => Resolved None
          end)
         (fun _ => Resolved None) ;;
     match fetched with
     | Some portfolio => Resolved portfolio
     | None => Resolved (SDK.default_portfolio p address)
     end) = Resolved x /\
    resilient_entry sdk address p x.
Proof.
  unfold resilient_entry.
  destruct (SDK.protocols sdk p) as [adapter|] eqn:Hp.
  - destruct (getAccountPortfolio adapter address) as [r|e] eqn:Hr.
    + exists r. cbn. split; [reflexivity|]. split.
      * intros a r' Ha Hr'. inversion Ha; subst. congruence.
      * intros [H|[a [e [Ha He]]]]; [discriminate|].
        inversion Ha; subst. congruence.
    + exists (SDK.default_portfolio p address). cbn. split; [reflexivity|]. split.
      * intros a r' Ha Hr'. inversion Ha; subst. congruence.
      * intros _. repeat split.
  - exists (SDK.default_portfolio p address). cbn. split; [reflexivity|]. split.
    + intros a r' Ha. discriminate.
    + intros _. repeat split.
Qed.

(** C10 (amended): on an initialized session whose user address is set
    (a string that is not empty), [getAggregatedPortfolio] resolves with
    exactly two portfolios, for Suilend and for Navi in this order; each
    is the one its adapter returns, or, when the adapter is missing or
    its request fails, the default with health factor Infinity, net
    value, total collateral and total debt 0, no positions and every
    optional property absent.  On an initialized session whose address is
    missing or empty the call rejects. *)
Theorem getAggregatedPortfolio_resilient (sdk : SDK.t) :
  SDK.initialized sdk = true ->
  (forall address,
     SDK._userAddress sdk = Some address -> address <> [] ->
     exists suilend navi,
       SDK.getAggregatedPortfolio sdk = Resolved [suilend; navi] /\
       resilient_entry sdk address Suilend suilend /\
       resilient_entry sdk address Navi navi) /\
  (SDK._userAddress sdk = None \/ SDK._userAddress sdk = Some [] ->
   SDK.getAggregatedPortfolio sdk
   = Rejected {| message := js "User address not set. Call initialize() first." |}).
Proof.
  intros Hi. split.
  - intros address Ha Hne. unfold SDK.getAggregatedPortfolio.
    rewrite (ensureInitialized_ok sdk Hi). cbn [bind].
    rewrite (userAddress_set sdk address Ha Hne). cbn [bind map SDK.promise_all].
    destruct (fetch_entry sdk address Suilend) as [s [Es Hs]].
    destruct (fetch_entry sdk address Navi) as [n [En Hn]].
    exists s, n. rewrite Es. cbn [bind]. rewrite En. cbn [bind].
    split; [reflexivity|]. split; assumption.
  - intros Ha. unfold SDK.getAggregatedPortfolio.
    rewrite (ensureInitialized_ok sdk Hi). cbn [bind].
    unfold SDK.userAddress. destruct Ha as [Ha|Ha]; rewrite Ha; reflexivity.
Qed.

(** *** Leverage and deleverage *)

Lemma failure_well_shaped msg : msg <> [] -> well_shaped (SDK.failure msg).
Proof. intros H _. exists msg. split; [reflexivity | exact H]. Qed.

Lemma error_text_nonempty e : SDK.error_text e <> [].
Proof.
  unfold SDK.error_text, or_else. destruct (message e); discriminate.
Qed.

Lemma dryRun_well_shaped out sdk tx r :
  SDK.dryRun out sdk tx = Resolved r -> well_shaped r.
Proof.
  unfold SDK.dryRun.
  destruct (tx_build out tx) as [built|]; [|discriminate]. cbn [bind].
  destruct (dryRunTransactionBlock out built) as [eff|]; [|discriminate].
  cbn [bind]. destruct (status_success eff).
  - intros H. inversion H; subst. intros Hs. discriminate.
  - intros H. inversion H; subst. apply failure_well_shaped.
    destruct (status_error eff) as [[|c m]|]; discriminate.
Qed.

Lemma execute_well_shaped out sdk tx r :
  SDK.execute out sdk tx = Resolved r -> well_shaped r.
Proof.
  unfold SDK.execute.
  destruct (SDK.keypair sdk) as [kp|]; [|discriminate].
  destruct (signAndExecuteTransaction out kp tx) as [resp|]; [|discriminate].
  cbn [bind]. destruct (effects resp) as [eff|].
  - destruct (status_success eff).
    + intros H. inversion H; subst. intros Hs. discriminate.
    + intros H. inversion H; subst. intros _. cbn.
      destruct (status_error eff) as [[|c m]|]; eexists; split;
        try reflexivity; discriminate.
  - intros H. inversion H; subst. intros _. cbn.
    eexists; split; [reflexivity | discriminate].
Qed.

Lemma try_build_then_return_cases out built dry sdk :
  (forall e, built = Rejected e ->
     SDK.try_build_then_return out built dry sdk
     = Resolved (SDK.failure (SDK.error_text e))) /\
  (forall tx, built = Resolved tx ->
     SDK.try_build_then_return out built dry sdk
     = if dry then SDK.dryRun out sdk tx else SDK.execute out sdk tx).
Proof.
  unfold SDK.try_build_then_return. split.
  - intros e ->. reflexivity.
  - intros tx ->. reflexivity.
Qed.

(** C9 (amended): on an initialized session, [leverage] and [deleverage]
    resolve to a failed [StrategyResult] with a message when no key pair
    is held; with a key pair, every failure of plan construction is
    returned as [{success: false, error}] with the message of the error,
    and when the dry run or the execution settles with a result, that
    result is returned, a failure among them carrying its message.  On
    every session that is not initialized both calls reject. *)
Theorem facade_returns_results (out : Outside) (sdk : SDK.t)
    (lp : LeverageParams) (dp : DeleverageParams) :
  (SDK.initialized sdk = false ->
   SDK.leverage out sdk lp
   = Rejected {| message := js "SDK not initialized. Call initialize() first." |} /\
   SDK.deleverage out sdk dp
   = Rejected {| message := js "SDK not initialized. Call initialize() first." |}) /\
  (SDK.initialized sdk = true ->
  (SDK.keypair sdk = None ->
   (exists r, SDK.leverage out sdk lp = Resolved r /\
              success r = false /\ well_shaped r) /\
   (exists r, SDK.deleverage out sdk dp = Resolved r /\
              success r = false /\ well_shaped r)) /\
  (forall kp address,
     SDK.keypair sdk = Some kp ->
     SDK._userAddress sdk = Some address -> address <> [] ->
     (forall e,
        SDK.buildLeverageTransaction out sdk (session_tx address) lp = Rejected e ->
        SDK.leverage out sdk lp = Resolved (SDK.failure (SDK.error_text e)) /\
        well_shaped (SDK.failure (SDK.error_text e))) /\
     (forall e,
        SDK.buildDeleverageTransaction out sdk (session_tx address) dp = Rejected e ->
        SDK.deleverage out sdk dp = Resolved (SDK.failure (SDK.error_text e)) /\
        well_shaped (SDK.failure (SDK.error_text e))) /\
     (forall tx r,
        SDK.buildLeverageTransaction out sdk (session_tx address) lp = Resolved tx ->
        (if lp_dryRun lp then SDK.dryRun out sdk tx else SDK.execute out sdk tx)
          = Resolved r ->
        SDK.leverage out sdk lp = Resolved r /\ well_shaped r) /\
     (forall tx r,
        SDK.buildDeleverageTransaction out sdk (session_tx address) dp = Resolved tx ->
        (if dp_dryRun dp then SDK.dryRun out sdk tx else SDK.execute out sdk tx)
          = Resolved r ->
        SDK.deleverage out sdk dp = Resolved r /\ well_shaped r))).
Proof.
  split.
  { intros Hi. unfold SDK.leverage, SDK.deleverage, SDK.ensureInitialized.
    rewrite Hi. split; reflexivity. }
  intros Hi. split.
  - intros Hk. unfold SDK.leverage, SDK.deleverage.
    rewrite (ensureInitialized_ok sdk Hi), Hk. cbn [bind].
    split; eexists; (split; [reflexivity|]); split; try reflexivity;
      apply failure_well_shaped; discriminate.
  - intros kp address Hk Ha Hne.
    unfold SDK.leverage, SDK.deleverage.
    rewrite (ensureInitialized_ok sdk Hi), Hk. cbn [bind].
    rewrite (userAddress_set sdk address Ha Hne). cbn [bind].
    fold (session_tx address).
    repeat split.
    + apply (proj1 (try_build_then_return_cases out _ _ sdk)). assumption.
    + apply failure_well_shaped, error_text_nonempty.
    + apply (proj1 (try_build_then_return_cases out _ _ sdk)). assumption.
    + apply failure_well_shaped, error_text_nonempty.
    + rewrite (proj2 (try_build_then_return_cases out _ _ sdk) tx); assumption.
    + destruct (lp_dryRun lp);
        [eapply dryRun_well_shaped | eapply execute_well_shaped]; eassumption.
    + rewrite (proj2 (try_build_then_return_cases out _ _ sdk) tx); assumption.
    + destruct (dp_dryRun dp);
        [eapply dryRun_well_shaped | eapply execute_well_shaped]; eassumption.
Qed.

Lemma getAggregatedPortfolio_witness :
  exists suilend navi,
    SDK.getAggregatedPortfolio keypair_session = Resolved [suilend; navi] /\
    resilient_entry keypair_session (js "0xa11ce") Suilend suilend /\
    resilient_entry keypair_session (js "0xa11ce") Navi navi.
Proof.
  apply (proj1 (getAggregatedPortfolio_resilient keypair_session eq_refl)
           (js "0xa11ce")).
  - reflexivity.
  - discriminate.
Defined.

Example getAggregatedPortfolio_example :
  SDK.getAggregatedPortfolio keypair_session =
  Resolved
    [ {| ap_protocol := Suilend;
         ap_address := js "0xa11ce";
         ap_healthFactor := NumFinite (Q2Qc 2);
         ap_netValueUsd := NumFinite (Q2Qc 500);
         ap_totalCollateralUsd := NumFinite (Q2Qc 1000);
         ap_totalDebtUsd := NumFinite (Q2Qc 500);
         ap_totalDepositedUsd := Some (NumFinite (Q2Qc 1000));
         ap_weightedBorrowsUsd := Some (NumFinite (Q2Qc 500));
         ap_borrowLimitUsd := Some (NumFinite (Q2Qc 700));
         ap_liquidationThresholdUsd := Some (NumFinite (Q2Qc 800));
         ap_positions := [];
         ap_netApy := None;
         ap_totalAnnualNetEarningsUsd := None |};
      SDK.default_portfolio Navi (js "0xa11ce") ].
Proof. reflexivity. Qed.

(** C10 as stated fails on the session that [initialize(client, '')]
    leaves: the call resolves and sets the flag, the empty address counts
    as "not set", and [getAggregatedPortfolio] rejects. *)
Lemma getAggregatedPortfolio_rejects_empty_address :
  let session := SDK.initialize example_outside SDK.create (inr []) in
  fst session = Resolved tt /\
  SDK.initialized (snd session) = true /\
  SDK.getAggregatedPortfolio (snd session)
  = Rejected {| message := js "User address not set. Call initialize() first." |}.
Proof. repeat split. Qed.

Lemma facade_returns_results_witness :
  (exists r,
     SDK.leverage example_outside browser_session (example_leverage (js "SUI") true)
       = Resolved r /\ success r = false /\ well_shaped r) /\
  SDK.leverage example_outside keypair_session (example_leverage (js "DOGE") true)
    = Resolved (SDK.failure (js "Unknown asset symbol: DOGE")).
Proof.
  split.
  - apply (proj1 (proj2 (facade_returns_results example_outside browser_session
                    (example_leverage (js "SUI") true) (example_deleverage true))
                    eq_refl)).
    reflexivity.
  - apply (proj1 (proj2 (proj2 (facade_returns_results example_outside
                    keypair_session
                    (example_leverage (js "DOGE") true) (example_deleverage true))
                    eq_refl) example_keypair (js "0xa11ce") eq_refl eq_refl
                    ltac:(discriminate))
                 {| message := js "Unknown asset symbol: DOGE" |}).
    reflexivity.
Defined.

(** C9 as stated fails on a session that was never initialized: both
    calls reject instead of resolving to a result. *)
Lemma leverage_rejects_before_initialize :
  SDK.leverage example_outside SDK.create (example_leverage (js "SUI") true)
    = Rejected {| message := js "SDK not initialized. Call initialize() first." |} /\
  SDK.deleverage example_outside SDK.create (example_deleverage true)
    = Rejected {| message := js "SDK not initialized. Call initialize() first." |} /\
  ~ (exists r, SDK.leverage example_outside SDK.create
                 (example_leverage (js "SUI") true) = Resolved r).
Proof.
  repeat split; try reflexivity. intros [r H]. discriminate.
Qed.

(** The promise that [dryRun] or [execute] returns is handed back without
    [await]: when it rejects, the rejection is that of the facade call. *)
Lemma returned_promise_rejection_escapes (out : Outside) (sdk : SDK.t)
    (dry : bool) (tx : Transaction) (e : JsError) :
  (if dry then SDK.dryRun out sdk tx else SDK.execute out sdk tx) = Rejected e ->
  SDK.try_build_then_return out (Resolved tx) dry sdk = Rejected e.
Proof.
  intros H. rewrite (proj2 (try_build_then_return_cases out _ dry sdk) tx eq_refl).
  exact H.
Qed.

Example deleverage_execution_rejection_escapes :
  SDK.deleverage example_outside keypair_session (example_deleverage false)
  = Rejected {| message := js "fetch failed" |}.
Proof. vm_compute. reflexivity. Qed.

(* ===================================================================== *)
(** ** unnamed/part_002: more on [parseUnits] and [formatUnits] *)
(* ===================================================================== *)

(** *** More on parsing amounts *)

Lemma all_digits_app a b :
  all_digits (a ++ b) = all_digits a && all_digits b.
Proof. apply forallb_app. Qed.

Lemma all_digits_firstn n s : all_digits s = true -> all_digits (firstn n s) = true.
Proof.
  intros H. rewrite <- (firstn_skipn n s) in H.
  rewrite all_digits_app in H. apply andb_true_iff in H. tauto.
Qed.

Lemma all_digits_zeros k : all_digits (repeat "0"%char k) = true.
Proof. induction k; simpl; auto. Qed.

(** What [parseUnits] reads from an integer part and a fraction. *)
Lemma parseUnits_parts i f d :
  all_digits i = true -> all_digits f = true ->
  parseUnits (i ++ js "." ++ f) d
  = BigInt.of_string (i ++ slice_to d (padEnd d "0"%char f)).
Proof.
  intros Di Df. unfold parseUnits, parseUnits_literal.
  change (split (js ".")) with (split dotsep).
  change (js "." ++ f) with ("."%char :: f).
  rewrite (split_dot_app i f Di), (split_dot_digits f Df). reflexivity.
Qed.

Lemma slice_padEnd_exact f extra d :
  length f = d -> slice_to d (padEnd d "0"%char (f ++ extra)) = f.
Proof.
  intros L. unfold slice_to, padEnd. rewrite <- app_assoc.
  rewrite firstn_app. rewrite L, Nat.sub_diag. simpl.
  rewrite app_nil_r. rewrite <- L. apply firstn_all.
Qed.

Lemma slice_padEnd_short f d :
  length f <= d ->
  slice_to d (padEnd d "0"%char f) = f ++ repeat "0"%char (d - length f).
Proof.
  intros L. unfold slice_to, padEnd. apply firstn_all2.
  rewrite length_app, repeat_length. lia.
Qed.

(** X1: digits of the fraction beyond [decimals] are dropped, never
    rounded: an amount with a longer fraction parses to the same raw
    value as the amount cut after [decimals] digits. *)
Theorem parseUnits_truncates (i f extra : jstring) (d : nat) :
  all_digits i = true -> all_digits f = true -> all_digits extra = true ->
  length f = d ->
  parseUnits (i ++ js "." ++ f ++ extra) d = parseUnits (i ++ js "." ++ f) d.
Proof.
  intros Di Df De L.
  rewrite !parseUnits_parts; try assumption.
  - rewrite (slice_padEnd_exact f extra d L).
    rewrite <- (app_nil_r f) at 2. rewrite (slice_padEnd_exact f [] d L).
    reflexivity.
  - rewrite all_digits_app, Df, De. reflexivity.
Qed.

Lemma parseUnits_truncates_witness :
  parseUnits (js "1" ++ js "." ++ js "234567" ++ js "89") 6
  = parseUnits (js "1" ++ js "." ++ js "234567") 6.
Proof. apply parseUnits_truncates; reflexivity. Defined.

Lemma of_uint_acc_snoc_zero d acc :
  Pos.of_uint_acc (snoc_zero d) acc = (10 * Pos.of_uint_acc d acc)%positive.
Proof.
  revert acc. induction d; intros acc; simpl; try apply IHd. reflexivity.
Qed.

Lemma of_uint_snoc_zero d : N.of_uint (snoc_zero d) = (10 * N.of_uint d)%N.
Proof.
  unfold N.of_uint.
  induction d; simpl; try rewrite of_uint_acc_snoc_zero; try reflexivity.
  exact IHd.
Qed.

Lemma uint_of_digits_snoc_zero s :
  BigInt.uint_of_digits (s ++ ["0"%char])
  = option_map snoc_zero (BigInt.uint_of_digits s).
Proof.
  induction s as [|c t IH]; [reflexivity|].
  simpl. rewrite IH. destruct (BigInt.uint_of_digits t) as [d|]; [|reflexivity].
  simpl. unfold BigInt.digit_cons.
  repeat (match goal with |- context [if ?b then _ else _] => destruct b end;
          [reflexivity|]).
  reflexivity.
Qed.

Lemma digits_value_zeros_after s k v :
  digits_value s = Some v ->
  digits_value (s ++ repeat "0"%char k) = Some (v * 10 ^ Z.of_nat k)%Z.
Proof.
  revert v. induction k as [|k IH]; intros v H.
  - simpl. rewrite app_nil_r, H. f_equal. lia.
  - replace (repeat "0"%char (S k)) with (repeat "0"%char k ++ ["0"%char])
      by (rewrite <- repeat_cons; reflexivity).
    rewrite app_assoc. specialize (IH v H).
    unfold digits_value in *. rewrite uint_of_digits_snoc_zero.
    destruct (BigInt.uint_of_digits (s ++ repeat "0"%char k)) as [d|];
      [|discriminate].
    simpl in *. inversion IH as [E]. rewrite of_uint_snoc_zero.
    f_equal. rewrite N2Z.inj_mul, E.
    change (Z.pow_pos 10 (Pos.of_succ_nat k)) with (10 ^ Z.of_nat (S k))%Z.
    rewrite Nat2Z.inj_succ, Z.pow_succ_r by lia.
    change (Z.of_N 10) with 10%Z. lia.
Qed.

(** X2: a whole number of tokens is scaled by [10 ^ decimals]. *)
Theorem parseUnits_whole_number (n : Z) (d : nat) :
  (0 <= n)%Z ->
  parseUnits (BigInt.toString n) d = Some (n * 10 ^ Z.of_nat d)%Z.
Proof.
  intros Hn. destruct (toString_nonneg_facts n Hn) as [Hne [Hdig Hval]].
  unfold parseUnits, parseUnits_literal. change (split (js ".")) with (split dotsep).
  rewrite (split_dot_digits _ Hdig). simpl nth.
  unfold padEnd, slice_to. simpl length. rewrite Nat.sub_0_r. simpl app.
  rewrite firstn_all2 by (rewrite repeat_length; lia).
  rewrite of_string_digits.
  - apply digits_value_zeros_after. exact Hval.
  - destruct (BigInt.toString n); [congruence | discriminate].
  - rewrite all_digits_app, Hdig, all_digits_zeros. reflexivity.
Qed.

Lemma parseUnits_whole_number_witness :
  parseUnits (BigInt.toString 15) 6 = Some (15 * 10 ^ Z.of_nat 6)%Z.
Proof. apply parseUnits_whole_number. lia. Defined.

(** *** The shape of a formatted amount *)

Lemma strip_fraction_last f :
  all_digits f = true -> strip_dot_zeros f <> [] ->
  last (strip_dot_zeros f) "x"%char <> "0"%char.
Proof.
  induction f as [|c t IH]; intros Hd Hne; [simpl in Hne; congruence|].
  simpl in Hd. apply andb_true_iff in Hd as [Hc Ht].
  cbn [strip_dot_zeros] in *. rewrite (dot_zeros_at_end_digit c t Hc) in *.
  destruct (all_zeros (c :: t)) eqn:Hz; [congruence|].
  destruct (strip_dot_zeros t) as [|c' t'] eqn:Hs.
  - simpl. intros ->. 
    destruct (strip_fraction t Ht) as [_ [_ [_ S4]]].
    simpl in Hz. replace (Ascii.eqb "0" "0")%char with true in Hz by reflexivity.
    simpl in Hz. fold (all_zeros t) in Hz. apply S4 in Hz. congruence.
  - change (last (c :: c' :: t') "x"%char) with (last (c' :: t') "x"%char).
    apply IH; [exact Ht | discriminate].
Qed.

Lemma strip_fraction_length f :
  length (strip_dot_zeros f) <= length f.
Proof.
  induction f as [|c t IH]; [reflexivity|]. cbn [strip_dot_zeros].
  destruct (dot_zeros_at_end (c :: t)); simpl; lia.
Qed.

(** X3: a formatted non-negative amount is an integer part, followed, when
    the fraction is not zero, by a dot and at most [decimals] digits that
    do not end in a zero. *)
Theorem formatUnits_shape (raw : Z) (d : nat) :
  (0 <= raw)%Z ->
  exists i f,
    formatUnits raw d = i ++ match f with [] => [] | _ => "."%char :: f end /\
    i <> [] /\ all_digits i = true /\ all_digits f = true /\
    length f <= d /\
    (f <> [] -> last f "x"%char <> "0"%char).
Proof.
  intros Hraw.
  destruct (toString_nonneg_facts raw Hraw) as [Hne [Hdig Hval]].
  unfold formatUnits. destruct (Nat.eqb d 0) eqn:Hd.
  - exists (BigInt.toString raw), []. rewrite app_nil_r.
    repeat split; try assumption; try reflexivity; [simpl; lia | congruence].
  - apply Nat.eqb_neq in Hd.
    set (s := BigInt.toString raw) in *.
    set (pad := padStart (d + 1) "0"%char s).
    set (transition := length pad - d).
    assert (Hlen : d + 1 <= length pad).
    { unfold pad, padStart. rewrite length_app, repeat_length. lia. }
    assert (Hpad_digits : all_digits pad = true).
    { unfold pad, padStart. rewrite all_digits_app, Hdig, all_digits_zeros.
      reflexivity. }
    pose proof (firstn_skipn transition pad) as Hcat.
    assert (Di : all_digits (slice_to transition pad) = true /\
                 all_digits (slice_from transition pad) = true).
    { unfold slice_to, slice_from. apply andb_true_iff.
      rewrite <- all_digits_app, Hcat. exact Hpad_digits. }
    destruct Di as [Di Df].
    assert (Lf : length (slice_from transition pad) = d).
    { unfold slice_from, transition. rewrite length_skipn. lia. }
    assert (Li : length (slice_to transition pad) = transition).
    { unfold slice_to, transition. rewrite length_firstn. lia. }
    assert (Hi : slice_to transition pad <> []).
    { intros E. rewrite E in Li. unfold transition in Li. simpl in Li. lia. }
    assert (Hf : slice_from transition pad <> []).
    { intros E. rewrite E in Lf. simpl in Lf. lia. }
    set (i := slice_to transition pad) in *.
    set (f := slice_from transition pad) in *.
    change (js "." ++ f) with ("."%char :: f).
    rewrite (strip_integer_part i f Di), (strip_at_dot f Hf).
    destruct (strip_fraction f Df) as [S1 [S2 [S3 S4]]].
    exists i, (strip_dot_zeros f).
    destruct (all_zeros f) eqn:Hz.
    + rewrite (S3 eq_refl), app_nil_r.
      replace (or_else i (js "0")) with i by (destruct i; [congruence | reflexivity]).
      repeat split; try assumption; try reflexivity; [simpl; lia | congruence].
    + replace (or_else (i ++ "."%char :: strip_dot_zeros f) (js "0"))
        with (i ++ "."%char :: strip_dot_zeros f)
        by (destruct i; [congruence | reflexivity]).
      pose proof (S4 eq_refl) as Hn.
      repeat split; try assumption.
      * destruct (strip_dot_zeros f); [congruence | reflexivity].
      * rewrite <- Lf. apply strip_fraction_length.
      * intros _. apply strip_fraction_last; assumption.
Qed.

Lemma formatUnits_shape_witness :
  exists i f,
    formatUnits 1500000 6 = i ++ match f with [] => [] | _ => "."%char :: f end /\
    i <> [] /\ all_digits i = true /\ all_digits f = true /\
    length f <= 6 /\
    (f <> [] -> last f "x"%char <> "0"%char).
Proof. apply formatUnits_shape. lia. Defined.

(* ===================================================================== *)
(** ** lib/utils/coin.ts: spellings of one coin type *)
(* ===================================================================== *)

(** *** The canonical form of a coin type *)

Lemma no_colon_clean s : no_colon s = true -> clean s = true.
Proof.
  induction s as [|c t IH]; intros H; [reflexivity|].
  simpl in H. apply andb_true_iff in H as [Hc Ht].
  apply negb_true_iff in Hc.
  rewrite clean_cons_other by exact Hc. apply IH. exact Ht.
Qed.

Lemma split_no_colon s : no_colon s = true -> split dcolon s = [s].
Proof.
  induction s as [|c t IH]; intros H; [reflexivity|].
  simpl in H. apply andb_true_iff in H as [Hc Ht].
  apply negb_true_iff in Hc.
  rewrite split_dcolon_miss.
  - rewrite (IH Ht). reflexivity.
  - destruct t; simpl; rewrite Hc; reflexivity.
Qed.

Lemma split_three_parts p0 p1 p2 :
  clean p0 = true -> no_colon p1 = true -> no_colon p2 = true ->
  split dcolon (p0 ++ dcolon ++ p1 ++ dcolon ++ p2) = [p0; p1; p2].
Proof.
  intros H0 H1 H2.
  rewrite (split_app_clean p0 _ H0).
  rewrite (split_app_clean p1 _ (no_colon_clean p1 H1)).
  rewrite (split_no_colon p2 H2). reflexivity.
Qed.

Lemma is_hex_cases c : is_hex c = true -> In c (js "0123456789abcdefABCDEF").
Proof.
  unfold is_hex. intros H. apply existsb_exists in H as [d [Hin Hd]].
  apply Ascii.eqb_eq in Hd. subst. exact Hin.
Qed.

Lemma hex_not_colon_x c :
  is_hex c = true ->
  Ascii.eqb ":"%char c = false /\ Ascii.eqb "x"%char c = false.
Proof.
  intros H. apply is_hex_cases in H. simpl in H.
  repeat (destruct H as [H|H]; [subst c; split; reflexivity|]). contradiction.
Qed.

Lemma hex_no_colon h : hex_string h = true -> no_colon h = true.
Proof.
  induction h as [|c t IH]; intros H; [reflexivity|].
  simpl in H. apply andb_true_iff in H as [Hc Ht].
  simpl. rewrite (proj1 (hex_not_colon_x c Hc)). simpl. apply IH. exact Ht.
Qed.

(** A hexadecimal string holds no [0x]; nor does it after a zero. *)
Lemma replace_0x_hex h :
  hex_string h = true -> replace (js "0x") [] h = h.
Proof.
  induction h as [|c t IH]; intros H; [reflexivity|].
  simpl in H. apply andb_true_iff in H as [Hc Ht].
  cbn [replace].
  replace (starts_with (js "0x") (c :: t)) with false.
  - rewrite (IH Ht). reflexivity.
  - destruct t as [|c' t']; simpl.
    + rewrite andb_false_r. reflexivity.
    + simpl in Ht. apply andb_true_iff in Ht as [Hc' _].
      rewrite (proj2 (hex_not_colon_x c' Hc')).
      rewrite andb_false_r. reflexivity.
Qed.

Lemma hex_zeros k : hex_string (repeat "0"%char k) = true.
Proof. induction k; simpl; auto. Qed.

Lemma padStart_zeros k h :
  k + length h <= 64 ->
  padStart 64 "0"%char (repeat "0"%char k ++ h) = padStart 64 "0"%char h.
Proof.
  intros L. unfold padStart. rewrite length_app, repeat_length.
  rewrite app_assoc, <- repeat_app. f_equal. f_equal. lia.
Qed.

(** X4: on an identifier [pkg::module::name] whose package is written in
    hexadecimal, the [0x] prefix and leading zeros make no difference:
    all spellings normalize to the same 64-digit form. *)
Theorem normalizeCoinType_equates_spellings (h m n : jstring) (k : nat) :
  hex_string h = true -> no_colon m = true -> no_colon n = true ->
  k + length h <= 64 ->
  let canonical :=
    js "0x" ++ repeat "0"%char (64 - length h) ++ h ++ js "::" ++ m ++ js "::" ++ n in
  normalizeCoinType (h ++ js "::" ++ m ++ js "::" ++ n) = canonical /\
  normalizeCoinType (js "0x" ++ h ++ js "::" ++ m ++ js "::" ++ n) = canonical /\
  normalizeCoinType
    (js "0x" ++ repeat "0"%char k ++ h ++ js "::" ++ m ++ js "::" ++ n) = canonical /\
  normalizeCoinType canonical = canonical.
Proof.
  intros Hh Hm Hn Hk. cbv zeta.
  assert (Hz : hex_string (repeat "0"%char k ++ h) = true).
  { unfold hex_string. rewrite forallb_app. fold (hex_string h).
    fold (hex_string (repeat "0"%char k)). rewrite hex_zeros, Hh. reflexivity. }
  assert (Hp : hex_string (repeat "0"%char (64 - length h) ++ h) = true).
  { unfold hex_string. rewrite forallb_app. fold (hex_string h).
    fold (hex_string (repeat "0"%char (64 - length h))).
    rewrite hex_zeros, Hh. reflexivity. }
  assert (C0x : forall t, hex_string t = true -> clean (js "0x" ++ t) = true).
  { intros t Ht. change (js "0x" ++ t) with ("0"%char :: "x"%char :: t).
    rewrite !clean_cons_other by reflexivity.
    apply no_colon_clean, hex_no_colon, Ht. }
  change (js "::") with dcolon.
  repeat split.
  - rewrite (normalizeCoinType_three _ h m n).
    + rewrite (replace_0x_hex h Hh). unfold padStart. rewrite <- !app_assoc.
      reflexivity.
    + apply split_three_parts; try assumption.
      apply no_colon_clean, hex_no_colon, Hh.
  - rewrite (normalizeCoinType_three _ (js "0x" ++ h) m n).
    + change (replace (js "0x") [] (js "0x" ++ h)) with h.
      unfold padStart. rewrite <- !app_assoc. reflexivity.
    + rewrite (app_assoc (js "0x") h). apply split_three_parts; try assumption.
      apply C0x, Hh.
  - rewrite (normalizeCoinType_three _ (js "0x" ++ repeat "0"%char k ++ h) m n).
    + change (replace (js "0x") [] (js "0x" ++ repeat "0"%char k ++ h))
        with (repeat "0"%char k ++ h).
      rewrite (padStart_zeros k h Hk).
      unfold padStart. rewrite <- !app_assoc. reflexivity.
    + rewrite (app_assoc (js "0x")), (app_assoc (js "0x" ++ repeat "0"%char k)).
      rewrite <- (app_assoc (js "0x")).
      apply split_three_parts; try assumption. apply C0x, Hz.
  - rewrite (normalizeCoinType_three _
               (js "0x" ++ repeat "0"%char (64 - length h) ++ h) m n).
    + change (replace (js "0x") []
                (js "0x" ++ repeat "0"%char (64 - length h) ++ h))
        with (repeat "0"%char (64 - length h) ++ h).
      rewrite padStart_long.
      * rewrite <- !app_assoc. reflexivity.
      * rewrite length_app, repeat_length. lia.
    + rewrite (app_assoc (js "0x")),
        (app_assoc (js "0x" ++ repeat "0"%char (64 - length h))).
      rewrite <- (app_assoc (js "0x")).
      apply split_three_parts; try assumption. apply C0x, Hp.
Qed.

Lemma normalizeCoinType_equates_spellings_witness :
  normalizeCoinType (js "2" ++ js "::" ++ js "sui" ++ js "::" ++ js "SUI")
    = SUI_COIN_TYPE /\
  normalizeCoinType (js "0x" ++ js "2" ++ js "::" ++ js "sui" ++ js "::" ++ js "SUI")
    = SUI_COIN_TYPE /\
  normalizeCoinType
    (js "0x" ++ repeat "0"%char 3 ++ js "2" ++ js "::" ++ js "sui" ++ js "::" ++ js "SUI")
    = SUI_COIN_TYPE /\
  normalizeCoinType SUI_COIN_TYPE = SUI_COIN_TYPE.
Proof.
  apply (normalizeCoinType_equates_spellings (js "2") (js "sui") (js "SUI") 3);
    try reflexivity.
  simpl. lia.
Defined.

(* ===================================================================== *)
(** ** lib/suilend: compounding, health factor and liquidation price *)
(* ===================================================================== *)

(** *** More on the rounded quotient *)

Lemma Qc_nonzero_Q (i : Qc) : i <> Q2Qc 0 -> ~ Qeq i 0.
Proof.
  intros H E. apply H. apply Qc_is_canon. simpl. exact E.
Qed.

Lemma div_dp_same (i : Qc) : i <> Q2Qc 0 -> BN.div_dp i i = Q2Qc 1.
Proof.
  intros Hi. rewrite (div_dp_exact i i (10 ^ 20)).
  - apply Qc_is_canon. unfold Qcdiv, Qcmult, Qcinv. cbn [this Q2Qc].
    rewrite !Qred_correct. apply Qmult_inv_r. apply Qc_nonzero_Q, Hi.
  - unfold Qdiv. rewrite Qmult_inv_r by (apply Qc_nonzero_Q, Hi).
    rewrite Qmult_1_l. reflexivity.
Qed.

Lemma round_half_up_ge (q : Q) (n : Z) :
  (0 <= n)%Z -> Qle (inject_Z n) q -> (n <= BN.round_half_up q)%Z.
Proof.
  intros Hn H. unfold BN.round_half_up.
  destruct (Qcompare q 0) eqn:C.
  - rewrite <- (Qfloor_Z n). apply Qfloor_resp_le.
    apply Qle_trans with q; [exact H|].
    rewrite <- (Qplus_0_r q) at 1. apply Qplus_le_compat; [apply Qle_refl | discriminate].
  - apply Qlt_alt in C. exfalso.
    assert (Qle 0 (inject_Z n)) by (unfold Qle; simpl; lia).
    apply (Qlt_irrefl q). apply Qlt_le_trans with 0%Q; [exact C|].
    apply Qle_trans with (inject_Z n); assumption.
  - rewrite <- (Qfloor_Z n). apply Qfloor_resp_le.
    apply Qle_trans with q; [exact H|].
    rewrite <- (Qplus_0_r q) at 1. apply Qplus_le_compat; [apply Qle_refl | discriminate].
Qed.

(** When [0 < b <= a], the rounded quotient [a / b] is at least one. *)
Lemma div_dp_ge_one (a b : Qc) :
  Qclt (Q2Qc 0) b -> Qcle b a -> Qcle (Q2Qc 1) (BN.div_dp a b).
Proof.
  intros Hb Hab. unfold Qcle, Qclt in *. cbn [this Q2Qc] in Hb.
  rewrite Qred_correct in Hb.
  unfold BN.div_dp. cbn [this Q2Qc]. rewrite !Qred_correct.
  set (S := inject_Z (10 ^ BN.DECIMAL_PLACES)).
  assert (HS : Qlt 0 S) by reflexivity.
  assert (H1 : Qle S (Qmult (Qdiv a b) S)).
  { rewrite <- (Qmult_1_l S) at 1. apply Qmult_le_compat_r; [|apply Qlt_le_weak, HS].
    apply Qle_shift_div_l; [exact Hb|]. rewrite Qmult_1_l. exact Hab. }
  pose proof (round_half_up_ge (Qmult (Qdiv a b) S) (10 ^ BN.DECIMAL_PLACES)
                ltac:(vm_compute; discriminate) H1) as H2.
  apply Qle_shift_div_l; [exact HS|]. rewrite Qmult_1_l.
  unfold S. rewrite <- Zle_Qle. exact H2.
Qed.

(** *** More on the compounded borrow *)

Lemma times_one (raw : BN.t) : BN.times raw (BN.Fin (Q2Qc 1)) = raw.
Proof.
  destruct raw as [| s | r]; simpl; try reflexivity.
  - replace (BN.is_zero (Q2Qc 1)) with false by reflexivity.
    replace (BN.negb_zero (Q2Qc 1)) with false by reflexivity.
    rewrite xorb_false_r. reflexivity.
  - f_equal. apply Qcmult_1_r.
Qed.

(** X5: when the rate has not moved since the borrow, the amount owed is
    the raw amount. *)
Theorem calculateCompoundedBorrow_same_rate (raw : BN.t) (rate : Qc) :
  rate <> Q2Qc 0 ->
  calculateCompoundedBorrow raw (BN.Fin rate) (BN.Fin rate) = raw.
Proof.
  intros Hr. destruct (eq_zero_false rate Hr) as [E Hz].
  unfold calculateCompoundedBorrow. rewrite E. cbn [BN.div]. rewrite Hz.
  rewrite (div_dp_same rate Hr). apply times_one.
Qed.

Lemma calculateCompoundedBorrow_same_rate_witness :
  calculateCompoundedBorrow (BN.of_Z 12345) (BN.Fin (Q2Qc (11 # 10)))
    (BN.Fin (Q2Qc (11 # 10))) = BN.of_Z 12345.
Proof.
  apply calculateCompoundedBorrow_same_rate.
  intros H. apply (f_equal this) in H. vm_compute in H. discriminate.
Defined.

(** X6: a debt never shrinks when the cumulative rate has grown: for a
    non-negative raw amount and rates [0 < origin <= current], the amount
    owed is a finite number that is at least the raw amount. *)
Theorem calculateCompoundedBorrow_never_shrinks (raw origin current : Qc) :
  Qcle (Q2Qc 0) raw -> Qclt (Q2Qc 0) origin -> Qcle origin current ->
  exists owed,
    calculateCompoundedBorrow (BN.Fin raw) (BN.Fin origin) (BN.Fin current)
      = BN.Fin owed /\
    Qcle raw owed.
Proof.
  intros Hraw Ho Hoc.
  assert (Hne : origin <> Q2Qc 0).
  { intros E. rewrite E in Ho. apply (Qclt_not_le _ _ Ho). apply Qcle_refl. }
  rewrite (calculateCompoundedBorrow_finite raw origin current Hne).
  eexists. split; [reflexivity|].
  pose proof (div_dp_ge_one current origin Ho Hoc) as H1.
  rewrite <- (Qcmult_1_r raw) at 1.
  rewrite (Qcmult_comm raw 1), (Qcmult_comm raw (BN.div_dp current origin)).
  apply Qcmult_le_compat_r; assumption.
Qed.

Lemma calculateCompoundedBorrow_never_shrinks_witness :
  exists owed,
    calculateCompoundedBorrow (BN.Fin (Q2Qc 3)) (BN.Fin (Q2Qc 3)) (BN.Fin (Q2Qc 4))
      = BN.Fin owed /\
    Qcle (Q2Qc 3) owed.
Proof.
  apply calculateCompoundedBorrow_never_shrinks; unfold Qcle, Qclt; simpl;
    unfold Qle, Qlt; simpl; lia.
Defined.

(** *** More on the health factor *)

(** X7: for finite values and positive weighted borrows, a liquidation
    threshold that covers the weighted borrows gives a health factor of at
    least 1; so a reported health factor below 1 means that the weighted
    borrows exceed the threshold. *)
Theorem healthFactor_below_one (ob : ParsedObligation) (t w : Qc) :
  unhealthyBorrowValueUsd ob = BN.Fin t ->
  weightedBorrowsUsd ob = BN.Fin w ->
  Qclt (Q2Qc 0) w ->
  exists hf,
    healthFactor (calculatePortfolioMetrics ob) = BN.Fin hf /\
    (Qcle w t -> Qcle (Q2Qc 1) hf) /\
    (Qclt hf (Q2Qc 1) -> Qclt t w).
Proof.
  intros Ht Hw Hpos.
  assert (Hne : w <> Q2Qc 0).
  { intros E. rewrite E in Hpos. apply (Qclt_not_le _ _ Hpos). apply Qcle_refl. }
  destruct (eq_zero_false w Hne) as [E Hz].
  exists (BN.div_dp t w). split.
  - unfold calculatePortfolioMetrics. cbn [healthFactor].
    rewrite Ht, Hw, E. cbn [BN.div]. rewrite Hz. reflexivity.
  - split.
    + intros Hwt. apply div_dp_ge_one; assumption.
    + intros Hlt. apply Qcnot_le_lt. intros Hwt.
      apply (Qclt_not_le _ _ Hlt). apply div_dp_ge_one; assumption.
Qed.

Lemma healthFactor_below_one_witness :
  exists hf,
    healthFactor (calculatePortfolioMetrics two_deposit_obligation) = BN.Fin hf /\
    (Qcle (Q2Qc (inject_Z 500)) (Q2Qc (inject_Z 1200)) -> Qcle (Q2Qc 1) hf) /\
    (Qclt hf (Q2Qc 1) -> Qclt (Q2Qc (inject_Z 1200)) (Q2Qc (inject_Z 500))).
Proof.
  apply (healthFactor_below_one two_deposit_obligation
           (Q2Qc (inject_Z 1200)) (Q2Qc (inject_Z 500))).
  - reflexivity.
  - reflexivity.
  - unfold Qclt, Qlt. simpl. lia.
Defined.

(** *** More on the liquidation price *)

Lemma minus_zero (a : BN.t) : BN.minus a BN.zero = a.
Proof.
  destruct a as [| s | x]; try reflexivity.
  unfold BN.minus, BN.zero, BN.negated, BN.plus. f_equal.
  apply Qc_is_canon. unfold Qcplus, Qcopp. cbn [this Q2Qc].
  rewrite !Qred_correct. ring.
Qed.

Lemma otherCollateralWeighted_from ct ds acc :
  fold_left
    (fun acc d =>
       if jstring_eqb (dep_coinType d) ct then acc
       else BN.plus acc (BN.times (depositedAmountUsd d)
                           (pct_ratio (closeLtvPct (dep_config d)))))
    ds acc
  = fold_left
      (fun acc d =>
         if jstring_eqb (dep_coinType d) ct then acc
         else BN.plus acc (BN.times (depositedAmountUsd d)
                             (pct_ratio (closeLtvPct (dep_config d)))))
      (filter (fun d => negb (is_target ct d)) ds) acc.
Proof.
  revert acc. induction ds as [|d ds IH]; intros acc; [reflexivity|].
  simpl. unfold is_target at 1.
  destruct (jstring_eqb (dep_coinType d) ct) eqn:E; simpl.
  - apply IH.
  - rewrite E. apply IH.
Qed.

(** X8: the liquidation price of a collateral does not depend on the
    deposits of that collateral itself: two obligations with the same
    weighted borrows and the same other deposits give the same price. *)
Theorem calculateLiquidationPrice_others_constant
    (ct : jstring) (amt thr : BN.t) (ob ob' : ParsedObligation) :
  weightedBorrowsUsd ob = weightedBorrowsUsd ob' ->
  filter (fun d => negb (is_target ct d)) (deposits ob)
  = filter (fun d => negb (is_target ct d)) (deposits ob') ->
  calculateLiquidationPrice ct amt thr ob = calculateLiquidationPrice ct amt thr ob'.
Proof.
  intros Hw Hd. unfold calculateLiquidationPrice, otherCollateralWeighted.
  rewrite (otherCollateralWeighted_from ct (deposits ob)).
  rewrite (otherCollateralWeighted_from ct (deposits ob')).
  rewrite Hw, Hd. reflexivity.
Qed.

(** X9: when the collateral is the only kind of deposit, the price is
    [weightedBorrows / (amount x threshold)]: zero for weighted borrows
    that are not positive, and no price for a zero denominator. *)
Theorem calculateLiquidationPrice_sole_collateral
    (ct : jstring) (amt thr : BN.t) (ob : ParsedObligation) :
  forallb (is_target ct) (deposits ob) = true ->
  calculateLiquidationPrice ct amt thr ob =
  if BN.lte (weightedBorrowsUsd ob) BN.zero then Some BN.zero
  else if BN.eq (BN.times amt thr) BN.zero then None
  else Some (BN.div (weightedBorrowsUsd ob) (BN.times amt thr)).
Proof.
  intros H. unfold calculateLiquidationPrice, otherCollateralWeighted.
  rewrite (otherCollateralWeighted_from ct (deposits ob)).
  replace (filter (fun d => negb (is_target ct d)) (deposits ob)) with (@nil ParsedDeposit).
  - simpl. rewrite minus_zero. reflexivity.
  - symmetry. induction (deposits ob) as [|d ds IH]; [reflexivity|].
    simpl in H. apply andb_true_iff in H as [Hd Hds]. simpl. rewrite Hd. simpl.
    apply IH. exact Hds.
Qed.

Lemma otherCollateralWeighted_finite ct ds acc :
  forallb finite_deposit ds = true ->
  exists o,
    fold_left
      (fun acc d =>
         if jstring_eqb (dep_coinType d) ct then acc
         else BN.plus acc (BN.times (depositedAmountUsd d)
                             (pct_ratio (closeLtvPct (dep_config d)))))
      ds (BN.Fin acc) = BN.Fin o.
Proof.
  revert acc. induction ds as [|d ds IH]; intros acc H; [eexists; reflexivity|].
  simpl in H. apply andb_true_iff in H as [Hd Hds]. simpl.
  destruct (jstring_eqb (dep_coinType d) ct); [apply IH, Hds|].
  unfold finite_deposit in Hd.
  destruct (depositedAmountUsd d) as [| |v]; try discriminate.
  simpl. apply IH, Hds.
Qed.

Lemma div_dp_nonneg (a b : Qc) :
  Qcle (Q2Qc 0) a -> Qclt (Q2Qc 0) b -> Qcle (Q2Qc 0) (BN.div_dp a b).
Proof.
  intros Ha Hb. unfold Qcle, Qclt in *. cbn [this Q2Qc] in Ha, Hb.
  rewrite Qred_correct in Ha, Hb.
  unfold BN.div_dp. cbn [this Q2Qc]. rewrite !Qred_correct.
  set (S := inject_Z (10 ^ BN.DECIMAL_PLACES)).
  assert (HS : Qlt 0 S) by reflexivity.
  assert (H1 : Qle (inject_Z 0) (Qmult (Qdiv a b) S)).
  { apply Qmult_le_0_compat; [|apply Qlt_le_weak, HS].
    apply Qle_shift_div_l; [exact Hb|]. rewrite Qmult_0_l. exact Ha. }
  pose proof (round_half_up_ge _ 0 ltac:(lia) H1) as H2.
  apply Qle_shift_div_l; [exact HS|]. rewrite Qmult_0_l.
  rewrite Zle_Qle in H2. exact H2.
Qed.

(** X10: on a position with finite values, for a positive amount and a
    positive threshold, a price is always reported ([null] is never
    returned) and it is a finite number that is not negative. *)
Theorem calculateLiquidationPrice_never_negative
    (ct : jstring) (a t w : Qc) (ob : ParsedObligation) :
  weightedBorrowsUsd ob = BN.Fin w ->
  forallb finite_deposit (deposits ob) = true ->
  Qclt (Q2Qc 0) a -> Qclt (Q2Qc 0) t ->
  exists p,
    calculateLiquidationPrice ct (BN.Fin a) (BN.Fin t) ob = Some (BN.Fin p) /\
    Qcle (Q2Qc 0) p.
Proof.
  intros Hw Hf Ha Ht.
  destruct (otherCollateralWeighted_finite ct (deposits ob) (Q2Qc 0) Hf) as [o Ho].
  unfold calculateLiquidationPrice, otherCollateralWeighted.
  change BN.zero with (BN.Fin (Q2Qc 0)). rewrite Ho, Hw.
  cbn [BN.minus BN.negated BN.plus BN.lte BN.times BN.eq].
  set (n := Qcplus w (Qcopp o)).
  destruct (Qccompare n (Q2Qc 0)) eqn:C.
  - eexists. split; [reflexivity | apply Qcle_refl].
  - eexists. split; [reflexivity | apply Qcle_refl].
  - assert (Hpos : Qclt (Q2Qc 0) (Qcmult a t)).
    { rewrite <- (Qcmult_0_l t). apply Qcmult_lt_compat_r; assumption. }
    assert (Hcmp : Qccompare (Qcmult a t) (Q2Qc 0) = Gt).
    { apply Qcgt_alt. exact Hpos. }
    rewrite Hcmp. cbn [BN.div]. unfold BN.is_zero. rewrite Hcmp.
    eexists. split; [reflexivity|].
    apply div_dp_nonneg; [|exact Hpos].
    apply Qclt_le_weak. apply Qcgt_alt. exact C.
Qed.

Lemma calculateLiquidationPrice_never_negative_witness :
  exists p,
    calculateLiquidationPrice USDC_COIN_TYPE (BN.Fin (Q2Qc (inject_Z 500)))
      (BN.Fin (Q2Qc (8 # 10))) two_deposit_obligation = Some (BN.Fin p) /\
    Qcle (Q2Qc 0) p.
Proof.
  apply (calculateLiquidationPrice_never_negative USDC_COIN_TYPE
           (Q2Qc (inject_Z 500)) (Q2Qc (8 # 10)) (Q2Qc (inject_Z 500))).
  - reflexivity.
  - reflexivity.
  - unfold Qclt, Qlt. simpl. lia.
  - unfold Qclt, Qlt. simpl. lia.
Defined.

Lemma calculateLiquidationPrice_others_constant_witness :
  calculateLiquidationPrice SUI_COIN_TYPE (BN.of_Z 250) (pct_ratio 80)
    two_deposit_obligation
  = calculateLiquidationPrice SUI_COIN_TYPE (BN.of_Z 250) (pct_ratio 80)
      {| netValueUsd := BN.of_Z 0;
         obl_depositedAmountUsd := BN.of_Z 500;
         borrowedAmountUsd := BN.of_Z 500;
         borrowLimitUsd := BN.of_Z 350;
         unhealthyBorrowValueUsd := BN.of_Z 400;
         weightedBorrowsUsd := BN.of_Z 500;
         deposits := skipn 1 (deposits two_deposit_obligation) |}.
Proof.
  apply calculateLiquidationPrice_others_constant.
  - reflexivity.
  - vm_compute. reflexivity.
Defined.

Lemma calculateLiquidationPrice_sole_collateral_witness :
  calculateLiquidationPrice SUI_COIN_TYPE (BN.of_Z 250) (pct_ratio 80)
    sui_only_obligation
  = if BN.lte (BN.of_Z 500) BN.zero then Some BN.zero
    else if BN.eq (BN.times (BN.of_Z 250) (pct_ratio 80)) BN.zero then None
    else Some (BN.div (BN.of_Z 500) (BN.times (BN.of_Z 250) (pct_ratio 80))).
Proof.
  apply (calculateLiquidationPrice_sole_collateral SUI_COIN_TYPE (BN.of_Z 250)
           (pct_ratio 80) sui_only_obligation).
  vm_compute. reflexivity.
Defined.

(** *** Weighted open LTV *)

Lemma plus_zero_l (a : BN.t) : BN.plus BN.zero a = a.
Proof.
  destruct a as [| s | x]; try reflexivity.
  unfold BN.zero, BN.plus. f_equal. apply Qcplus_0_l.
Qed.

Lemma times_one_l (a : Qc) : BN.times (BN.Fin (Q2Qc 1)) (BN.Fin a) = BN.Fin a.
Proof. simpl. f_equal. apply Qcmult_1_l. Qed.

(** X11: with a single deposit that makes up the whole supply, the weighted
    open LTV is the open LTV of that deposit; without supply it is zero. *)
Theorem weightedOpenLtv_single_deposit (ob : ParsedObligation)
    (d : ParsedDeposit) (s : Qc) :
  deposits ob = [d] ->
  obl_depositedAmountUsd ob = BN.Fin s ->
  (Qclt (Q2Qc 0) s -> depositedAmountUsd d = BN.Fin s ->
   weightedOpenLtv (calculatePortfolioMetrics ob)
   = pct_ratio (openLtvPct (dep_config d))) /\
  (Qcle s (Q2Qc 0) ->
   weightedOpenLtv (calculatePortfolioMetrics ob) = BN.zero).
Proof.
  intros Hd Hs. unfold calculatePortfolioMetrics. cbn [weightedOpenLtv].
  rewrite Hd, Hs. cbn [BN.gt BN.zero]. split.
  - intros Hpos Hv.
    replace (Qccompare s (Q2Qc 0)) with Gt by (symmetry; apply Qcgt_alt; exact Hpos).
    cbn [fold_left]. rewrite Hv. cbn [BN.div].
    assert (Hne : s <> Q2Qc 0).
    { intros E. rewrite E in Hpos. apply (Qclt_not_le _ _ Hpos). apply Qcle_refl. }
    destruct (eq_zero_false s Hne) as [_ Hz]. rewrite Hz.
    rewrite (div_dp_same s Hne). unfold pct_ratio. rewrite times_one_l.
    apply plus_zero_l.
  - intros Hle. pose proof (proj1 (Qcle_alt _ _) Hle) as Hc.
    destruct (Qccompare s (Q2Qc 0)); try reflexivity.
    exfalso. apply Hc. reflexivity.
Qed.

Lemma weightedOpenLtv_single_deposit_witness :
  weightedOpenLtv (calculatePortfolioMetrics sui_only_obligation) = pct_ratio 70.
Proof.
  refine (proj1 (weightedOpenLtv_single_deposit sui_only_obligation sui_deposit
                   (Q2Qc (inject_Z 1000)) eq_refl eq_refl) _ eq_refl).
  unfold Qclt, Qlt. simpl. lia.
Defined.

(* ===================================================================== *)
(** ** strategies/deleverage.ts: estimates and built transactions *)
(* ===================================================================== *)

(** *** Choosing the best quote *)

(** X12: the quote that is taken is the first one whose output, compared
    as a double the way the comparator of the sort does, is greatest: the
    quotes before it give strictly less, the quotes after it give no
    more.  When every output is below 2^53, this is the order of the
    outputs themselves. *)
Theorem sort_by_amountOut_takes_first_best (qs : list Quote) (q : Quote)
    (rest : list Quote) :
  sort_by_amountOut qs = q :: rest ->
  exists before after,
    qs = before ++ q :: after /\
    (forall x, In x before ->
       (Number_of_integer (amountOut x) < Number_of_integer (amountOut q))%Z) /\
    (forall x, In x after ->
       (Number_of_integer (amountOut x) <= Number_of_integer (amountOut q))%Z) /\
    ((forall x, In x qs -> (Z.abs (amountOut x) < 2 ^ 53)%Z) ->
     (forall x, In x before -> (amountOut x < amountOut q)%Z) /\
     (forall x, In x after -> (amountOut x <= amountOut q)%Z)).
Proof.
  intros Hs.
  assert (Hne : qs <> []) by (intros ->; discriminate).
  destruct (sort_by_amountOut_first_best qs Hne)
    as [q' [rest' [before [after [Hs' [E [Hb Ha]]]]]]].
  rewrite Hs in Hs'. inversion Hs'; subst q' rest'.
  exists before, after.
  split; [exact E|]. split; [exact Hb|]. split; [exact Ha|].
  intros Hsafe. exact (first_best_safe qs before after q E Hsafe Hb Ha).
Qed.

Lemma sort_by_amountOut_takes_first_best_witness :
  exists before after,
    [ {| amountIn := 10; amountOut := 5 |}; {| amountIn := 10; amountOut := 7 |};
      {| amountIn := 11; amountOut := 7 |} ]
    = before ++ {| amountIn := 10; amountOut := 7 |} :: after /\
    (forall x, In x before ->
       (Number_of_integer (amountOut x) < Number_of_integer 7)%Z) /\
    (forall x, In x after ->
       (Number_of_integer (amountOut x) <= Number_of_integer 7)%Z) /\
    ((forall x,
        In x [ {| amountIn := 10; amountOut := 5 |};
               {| amountIn := 10; amountOut := 7 |};
               {| amountIn := 11; amountOut := 7 |} ] ->
        (Z.abs (amountOut x) < 2 ^ 53)%Z) ->
     (forall x, In x before -> (amountOut x < 7)%Z) /\
     (forall x, In x after -> (amountOut x <= 7)%Z)).
Proof.
  apply (sort_by_amountOut_takes_first_best _ {| amountIn := 10; amountOut := 7 |}
           [ {| amountIn := 11; amountOut := 7 |}; {| amountIn := 10; amountOut := 5 |} ]).
  reflexivity.
Defined.

(** *** What an estimate always satisfies *)

Lemma estimate_resolved (env : Collaborators)
    (position : PositionInfo) (e : DeleverageEstimate) :
  calculateDeleverageEstimate env position = Resolved e ->
  let D := amount (debt position) in
  let W := amount (collateral position) in
  flashLoanUsdc e = Z.quot (D * 1005) 1000 /\
  flashLoanFee e = calculateFee env (flashLoanUsdc e) /\
  totalRepayment e = (flashLoanUsdc e + flashLoanFee e)%Z /\
  (swapAmount e + keepCollateral e = W)%Z /\
  (swapAmount e <= W)%Z /\
  (0 <= keepCollateral e)%Z /\
  ((0 <= D)%Z -> (D <= flashLoanUsdc e)%Z).
Proof.
  unfold calculateDeleverageEstimate.
  destruct (quote env _ _ _) as [qs|]; [|discriminate]. cbn [bind].
  destruct (Nat.eqb (length qs) 0); [discriminate|].
  destruct (sort_by_amountOut qs) as [|q rest]; [discriminate|].
  unfold bigint_div.
  destruct (Z.eqb (amountOut q) 0); [discriminate|]. cbn [bind].
  match goal with
  | |- context [Z.ltb ?a ?b] => set (capped := Z.ltb a b)
  end.
  assert (Hq : forall D : Z, (0 <= D)%Z -> (D <= Z.quot (D * 1005) 1000)%Z).
  { intros D HD. rewrite Z.quot_div_nonneg by lia.
    apply Z.div_le_lower_bound; lia. }
  destruct (Z.ltb _ (amountOut q)).
  - destruct (Z.eqb (amountIn q) 0); [discriminate|]. cbn [bind].
    destruct (getTokenPrice env _); [|discriminate]. cbn [bind].
    intros H. inversion H; subst e; clear H. cbn.
    unfold capped.
    match goal with
    | |- context [Z.ltb ?a ?b] => destruct (Z.ltb_spec a b)
    end; repeat split; try lia; apply Hq.
  - cbn [bind].
    destruct (getTokenPrice env _); [|discriminate]. cbn [bind].
    intros H. inversion H; subst e; clear H. cbn.
    unfold capped.
    match goal with
    | |- context [Z.ltb ?a ?b] => destruct (Z.ltb_spec a b)
    end; repeat split; try lia; apply Hq.
Qed.

(** X13: every estimate that is returned balances: the repayment is the
    flash loan plus its fee, the swapped and the kept collateral add up
    to the collateral of the position, neither exceeds it, and for a
    non-negative debt the flash loan is at least the debt. *)
Theorem calculateDeleverageEstimate_balances (env : Collaborators)
    (position : PositionInfo) (e : DeleverageEstimate) :
  calculateDeleverageEstimate env position = Resolved e ->
  let D := amount (debt position) in
  let W := amount (collateral position) in
  flashLoanUsdc e = Z.quot (D * 1005) 1000 /\
  flashLoanFee e = calculateFee env (flashLoanUsdc e) /\
  totalRepayment e = (flashLoanUsdc e + flashLoanFee e)%Z /\
  (swapAmount e + keepCollateral e = W)%Z /\
  (swapAmount e <= W)%Z /\
  (0 <= keepCollateral e)%Z /\
  ((0 <= D)%Z -> (D <= flashLoanUsdc e)%Z).
Proof. exact (estimate_resolved env position e). Qed.

Lemma calculateDeleverageEstimate_balances_witness :
  let e := {| flashLoanUsdc := 1005000;
              flashLoanFee := 1005;
              totalRepayment := 1006005;
              swapAmount := 100000000;
              keepCollateral := 0;
              estimatedUsdcProfit := 0 |} in
  flashLoanUsdc e = Z.quot (1000000 * 1005) 1000 /\
  flashLoanFee e = Z.quot (flashLoanUsdc e) 1000 /\
  totalRepayment e = (flashLoanUsdc e + flashLoanFee e)%Z /\
  (swapAmount e + keepCollateral e = 100000000)%Z /\
  (swapAmount e <= 100000000)%Z /\
  (0 <= keepCollateral e)%Z /\
  ((0 <= 1000000)%Z -> (1000000 <= flashLoanUsdc e)%Z).
Proof.
  apply (calculateDeleverageEstimate_balances example_env
           (example_position 100000000 1000000)).
  vm_compute. reflexivity.
Defined.

(** X14: without a quote the estimate fails with the "No swap quotes found"
    error that names the collateral, and a best quote with an output of
    zero makes it fail with the RangeError of a division by zero. *)
Theorem calculateDeleverageEstimate_quote_errors (env : Collaborators)
    (position : PositionInfo) (qs : list Quote) :
  quote env (BigInt.toString (amount (collateral position)))
    (coinType (collateral position)) USDC_COIN_TYPE = Resolved qs ->
  (qs = [] ->
   calculateDeleverageEstimate env position
   = Rejected {| message := js "No swap quotes found for "
                              ++ symbol (collateral position) ++ js " -> USDC" |}) /\
  (forall q rest,
     sort_by_amountOut qs = q :: rest -> amountOut q = 0%Z ->
     calculateDeleverageEstimate env position
     = Rejected {| message := js "Division by zero" |}).
Proof.
  intros Hq. unfold calculateDeleverageEstimate. rewrite Hq. cbn [bind]. split.
  - intros ->. reflexivity.
  - intros q rest Hs Hz.
    assert (Hne : Nat.eqb (length qs) 0 = false).
    { destruct qs; [discriminate | reflexivity]. }
    rewrite Hne, Hs. unfold bigint_div. rewrite Hz. reflexivity.
Qed.

Lemma calculateDeleverageEstimate_quote_errors_witness :
  calculateDeleverageEstimate example_env (example_position 100 1000000)
  = Rejected {| message := js "Division by zero" |}.
Proof.
  apply (proj2 (calculateDeleverageEstimate_quote_errors example_env
                  (example_position 100 1000000)
                  [ {| amountIn := 100; amountOut := 0 |} ] eq_refl)
               {| amountIn := 100; amountOut := 0 |} []);
    reflexivity.
Defined.

(** *** What a built transaction always is *)

(** X15: whenever the builder resolves, the transaction is the one it was
    given, with its commands kept, followed by exactly nine steps: the
    flash loan of the estimate, the oracle refresh, the repayment of the
    debt, the withdrawal of all the collateral, the split and the swap of
    the estimated amount along the route taken from the quotes for that
    amount (the first one whose output, compared as a double, is
    greatest), the split of the total repayment, the repayment of the
    flash loan, and the transfer of the three remaining coins.  The plan
    splits off no more collateral than it withdraws, and it pays back the
    flash loan with its principal plus the fee. *)
Theorem buildDeleverageTransaction_resolved_plan (env : Collaborators)
    (tx tx' : Transaction) (user : jstring) (position : PositionInfo) :
  buildDeleverageTransaction env tx user position = Resolved tx' ->
  exists e qs best before after,
    calculateDeleverageEstimate env position = Resolved e /\
    quote env (BigInt.toString (swapAmount e)) (coinType (collateral position))
      USDC_COIN_TYPE = Resolved qs /\
    qs = before ++ best :: after /\
    (forall x, In x before ->
       (Number_of_integer (amountOut x) < Number_of_integer (amountOut best))%Z) /\
    (forall x, In x after ->
       (Number_of_integer (amountOut x) <= Number_of_integer (amountOut best))%Z) /\
    tx' = tx ++
      [ BorrowFlashLoan (flashLoanUsdc e) (js "usdc");
        RefreshOracles [coinType (collateral position); USDC_COIN_TYPE] user;
        RepayDebt USDC_COIN_TYPE LoanCoin user;
        WithdrawCollateral (coinType (collateral position))
          (BigInt.toString (amount (collateral position))) user;
        SplitCoins WithdrawnCoin (swapAmount e) CoinToSwap;
        SwapCoins best user CoinToSwap 100;
        SplitCoins SwappedUsdc (totalRepayment e) FlashRepayment;
        RepayFlashLoan FlashRepayment (js "usdc");
        TransferObjects [WithdrawnCoin; SwappedUsdc; LoanCoin] user ] /\
    (swapAmount e <= amount (collateral position))%Z /\
    totalRepayment e
    = (flashLoanUsdc e + calculateFee env (flashLoanUsdc e))%Z.
Proof.
  unfold buildDeleverageTransaction.
  destruct (calculateDeleverageEstimate env position) as [e|] eqn:He;
    [|discriminate].
  cbn [bind].
  destruct (refreshOracles env _ _); [|discriminate]. cbn [bind].
  destruct (repay env _ _); [|discriminate]. cbn [bind].
  destruct (withdraw env _ _ _); [|discriminate]. cbn [bind].
  destruct (quote env _ _ _) as [qs|] eqn:Hq; [|discriminate]. cbn [bind].
  destruct (Nat.eqb (length qs) 0) eqn:Hlen; [discriminate|].
  assert (Hne : qs <> []) by (intros ->; discriminate).
  destruct (sort_by_amountOut_first_best qs Hne)
    as [best [rest [before [after [Hs [E [Hb Ha]]]]]]].
  rewrite Hs.
  destruct (swap env best user); [|discriminate]. cbn [bind].
  intros H. inversion H; subst tx'; clear H.
  destruct (estimate_resolved env position e He)
    as [_ [Hfee [Htot [_ [Hle _]]]]].
  exists e, qs, best, before, after.
  split; [reflexivity|]. split; [exact Hq|]. split; [exact E|].
  split; [exact Hb|]. split; [exact Ha|].
  split; [rewrite <- !app_assoc; reflexivity|].
  split; [exact Hle|]. rewrite Htot, Hfee. reflexivity.
Qed.

Lemma buildDeleverageTransaction_resolved_plan_witness :
  exists tx',
    buildDeleverageTransaction example_env [SetGasBudget 1] example_user
      (example_position 1000000000 1000000) = Resolved tx' /\
    length tx' = 10.
Proof.
  destruct (buildDeleverageTransaction example_env [SetGasBudget 1] example_user
              (example_position 1000000000 1000000)) as [tx'|err] eqn:Hb;
    [|vm_compute in Hb; discriminate].
  exists tx'. split; [reflexivity|].
  destruct (buildDeleverageTransaction_resolved_plan example_env [SetGasBudget 1]
              tx' example_user (example_position 1000000000 1000000) Hb)
    as [e [qs [best [before [after [_ [_ [_ [_ [_ [Htx _]]]]]]]]]]].
  rewrite Htx. reflexivity.
Defined.

(* ===================================================================== *)
(** ** sdk.ts: sessions, symbols and the facade *)
(* ===================================================================== *)

(** *** The state that [initialize] leaves *)

(** X16: on every session, fresh or not, [initialize] stores the new
    address (and the key pair, if one is given) before the adapters are
    set up, and a string argument keeps the key pair of an earlier call.
    When it resolves the session is initialized with both adapters
    registered; when it rejects the flag is as it was before the call,
    while the address has already changed. *)
Theorem initialize_leaves_state (out : Outside) (sdk : SDK.t)
    (keypairOrAddress : Ed25519Keypair + jstring) :
  let settled := fst (SDK.initialize out sdk keypairOrAddress) in
  let sdk' := snd (SDK.initialize out sdk keypairOrAddress) in
  SDK._userAddress sdk'
    = Some (match keypairOrAddress with
            | inl kp => toSuiAddress kp
            | inr address => address
            end) /\
  SDK.keypair sdk'
    = match keypairOrAddress with
      | inl kp => Some kp
      | inr _ => SDK.keypair sdk
      end /\
  match settled with
  | Resolved _ =>
      SDK.initialized sdk' = true /\
      SDK.getProtocol sdk' Suilend = Resolved (new_SuilendAdapter out) /\
      SDK.getProtocol sdk' Navi = Resolved (new_NaviAdapter out)
  | Rejected e =>
      SDK.initialized sdk' = SDK.initialized sdk /\
      SDK.ensureInitialized sdk' = SDK.ensureInitialized sdk /\
      (initialize_adapter (new_SuilendAdapter out) = Rejected e \/
       initialize_adapter (new_NaviAdapter out) = Rejected e /\
       SDK.protocols sdk' Suilend = Some (new_SuilendAdapter out))
  end.
Proof.
  unfold SDK.initialize, SDK.getProtocol, SDK.ensureInitialized.
  destruct keypairOrAddress as [kp|address];
    destruct (initialize_adapter (new_SuilendAdapter out)) eqn:Hs;
    destruct (initialize_adapter (new_NaviAdapter out)) eqn:Hn;
    cbn; repeat split; auto.
Qed.

(** *** Symbols and coin types *)

Lemma jstring_eqb_true a b : jstring_eqb a b = true -> a = b.
Proof.
  unfold jstring_eqb. destruct (list_eq_dec ascii_dec a b); [auto | discriminate].
Qed.

Lemma jstring_eqb_refl a : jstring_eqb a a = true.
Proof.
  unfold jstring_eqb. destruct (list_eq_dec ascii_dec a a); [auto | contradiction].
Qed.

Lemma toUpperCase_unit_not_lower (c : ascii) :
  let n := nat_of_ascii (SDK.toUpperCase_unit c) in
  Nat.leb 97 n && Nat.leb n 122 = false.
Proof.
  destruct c as [[] [] [] [] [] [] [] []]; vm_compute; reflexivity.
Qed.

Lemma toUpperCase_small_w (s t : jstring) :
  SDK.toUpperCase s <> "w"%char :: t.
Proof.
  destruct s as [|c s]; [discriminate|]. simpl. intros H.
  inversion H as [[Hc Ht]].
  pose proof (toUpperCase_unit_not_lower c) as L. cbv zeta in L.
  rewrite Hc in L. vm_compute in L. discriminate.
Qed.

Lemma find_key_miss (k v : jstring) (u : jstring) rest :
  jstring_eqb k u = false ->
  find (fun kv : jstring * jstring => jstring_eqb (fst kv) u) ((k, v) :: rest)
  = find (fun kv : jstring * jstring => jstring_eqb (fst kv) u) rest.
Proof. intros H. cbn [find fst]. rewrite H. reflexivity. Qed.

Lemma jstring_eqb_small_w (t s : jstring) :
  jstring_eqb ("w"%char :: t) (SDK.toUpperCase s) = false.
Proof.
  destruct (jstring_eqb _ _) eqn:E; [|reflexivity].
  apply jstring_eqb_true in E. symmetry in E.
  exfalso. exact (toUpperCase_small_w _ _ E).
Qed.

(** X17: with the table [COIN_TYPES] of the repository, a symbol is looked
    of ASCII characters is looked up by its upper case among the entries
    whose key is upper case: a match resolves to the coin type of the table as it stands, which has
    a reserve in [SUILEND_RESERVES]; anything else, the keys [wUSDC],
    [wUSDT] and [wETH] included, is an unknown asset symbol. *)
Theorem resolveCoinType_by_symbol (out : Outside) (asset : jstring) :
  COIN_TYPES out = COIN_TYPES_table ->
  ascii_only asset = true ->
  includes (js "::") asset = false ->
  match find (fun kv => jstring_eqb (fst kv) (SDK.toUpperCase asset))
             upper_case_entries with
  | Some (_, ct) =>
      SDK.resolveCoinType out asset = Resolved ct /\
      exists r, getReserveByCoinType SUILEND_RESERVES ct = Some r /\
                mr_coinType r = ct
  | None =>
      SDK.resolveCoinType out asset
      = Rejected {| message := js "Unknown asset symbol: " ++ asset |}
  end.
Proof.
  intros Ht _ Hi. unfold SDK.resolveCoinType. rewrite Ht, Hi.
  change upper_case_entries with (firstn 8 COIN_TYPES_table).
  set (u := SDK.toUpperCase asset).
  unfold COIN_TYPES_table.
  cbn [firstn find fst].
  assert (W : forall k, jstring_eqb (js (String "w" k)) u = false)
    by (intros k; apply jstring_eqb_small_w).
  rewrite !W.
  repeat match goal with
  | |- context [if jstring_eqb ?k u then Some (?k, _) else _] =>
      destruct (jstring_eqb k u);
      [ cbn [snd]; split;
        [ vm_compute; reflexivity
        | eexists; split; vm_compute; reflexivity ]
      | ]
  end.
  reflexivity.
Qed.

Lemma resolveCoinType_by_symbol_witness :
  SDK.resolveCoinType (with_tables example_outside) (js "Lbtc")
  = Resolved (js "0x3e8e9423d80e1774a7ca128fccd8bf5f1f7753be658c5e645929037f7c819040::lbtc::LBTC")
  /\ SDK.resolveCoinType (with_tables example_outside) (js "wUSDC")
     = Rejected {| message := js "Unknown asset symbol: wUSDC" |}.
Proof.
  split.
  - exact (proj1 (resolveCoinType_by_symbol (with_tables example_outside)
                    (js "Lbtc") eq_refl eq_refl eq_refl)).
  - exact (resolveCoinType_by_symbol (with_tables example_outside)
             (js "wUSDC") eq_refl eq_refl eq_refl).
Defined.

(** *** The facade on an account that has nothing to unwind *)

(** X18: on a session that holds a key pair, [deleverage] does not reject
    when the account has no position, when its debt is zero, or when the
    position cannot be fetched: it resolves to a failure result with the
    message of the builder, for a dry run and for an execution alike. *)
Theorem deleverage_nothing_to_unwind (out : Outside) (sdk : SDK.t)
    (params : DeleverageParams) (kp : Ed25519Keypair) (c : ascii)
    (address : jstring) (adapter : ILendingProtocol) :
  SDK.initialized sdk = true ->
  SDK.keypair sdk = Some kp ->
  SDK._userAddress sdk = Some (c :: address) ->
  SDK.protocols sdk (dp_protocol params) = Some adapter ->
  match getPosition adapter (c :: address) with
  | Resolved None =>
      SDK.deleverage out sdk params
      = Resolved (SDK.failure (js "No position found to deleverage"))
  | Resolved (Some position) =>
      amount (debt position) = 0%Z ->
      SDK.deleverage out sdk params
      = Resolved (SDK.failure (js "No debt to repay. Use withdraw instead."))
  | Rejected e =>
      SDK.deleverage out sdk params
      = Resolved (SDK.failure (SDK.error_text e))
  end.
Proof.
  intros Hi Hk Ha Hp.
  unfold SDK.deleverage, SDK.buildDeleverageTransaction, SDK.ensureInitialized,
    SDK.getProtocol, SDK.userAddress, SDK.try_build_then_return.
  rewrite Hi, Hk, Ha, Hp. cbn [negb bind].
  destruct (getPosition adapter (c :: address)) as [[position|]|e];
    cbn [bind try_catch throw]; try reflexivity.
  intros Hz. rewrite Hz. reflexivity.
Qed.

Lemma deleverage_nothing_to_unwind_witness :
  SDK.deleverage example_outside keypair_session
    {| dp_protocol := Navi; dp_dryRun := false |}
  = Resolved (SDK.failure (js "No position found to deleverage")).
Proof.
  apply (deleverage_nothing_to_unwind example_outside keypair_session
           {| dp_protocol := Navi; dp_dryRun := false |} example_keypair
           "0"%char (js "xa11ce") example_navi);
    reflexivity.
Defined.

(** *** A dry run does not sign *)

(** X19: with [dryRun] set, [leverage] and [deleverage] settle in the same
    way whatever [signAndExecuteTransaction] would do: a dry run never
    signs or submits the transaction. *)
Theorem dry_run_never_signs (out : Outside)
    (sign : Ed25519Keypair -> Transaction -> outcome ExecutionResponse)
    (sdk : SDK.t) :
  (forall params, lp_dryRun params = true ->
     SDK.leverage (with_signer out sign) sdk params
     = SDK.leverage out sdk params) /\
  (forall params, dp_dryRun params = true ->
     SDK.deleverage (with_signer out sign) sdk params
     = SDK.deleverage out sdk params).
Proof.
  split; intros params Hd.
  - unfold SDK.leverage, SDK.try_build_then_return. rewrite Hd. reflexivity.
  - unfold SDK.deleverage, SDK.try_build_then_return. rewrite Hd. reflexivity.
Qed.

Lemma dry_run_never_signs_witness :
  SDK.deleverage
    (with_signer example_outside
       (fun _ _ => Resolved {| digest := js "D1"; effects := None |}))
    keypair_session (example_deleverage true)
  = SDK.deleverage example_outside keypair_session (example_deleverage true).
Proof.
  apply (proj2 (dry_run_never_signs example_outside
                  (fun _ _ => Resolved {| digest := js "D1"; effects := None |})
                  keypair_session)).
  reflexivity.
Defined.

(* ===================================================================== *)
(** ** lib/suilend/const.ts: lookups in the reserve table *)
(* ===================================================================== *)

(** *** The reserve table *)

(** X20: every entry of [SUILEND_RESERVES] is found by its own symbol and
    by its own coin type, written in any letter case: no entry hides
    another one.  Its coin type is in normal form already. *)
Theorem reserve_lookup_finds_entry (r : MarketReserve) :
  In r SUILEND_RESERVES ->
  (forall symbol, toLowerCase symbol = toLowerCase (mr_symbol r) ->
     getReserveBySymbol symbol = Some r) /\
  (forall ct, toLowerCase ct = toLowerCase (mr_coinType r) ->
     getReserveByCoinType SUILEND_RESERVES ct = Some r) /\
  normalizeCoinType (mr_coinType r) = mr_coinType r.
Proof.
  intros H. unfold SUILEND_RESERVES in H. cbn [In] in H.
  repeat (destruct H as [H|H];
          [ subst r; split; [|split];
            [ intros s Hs; unfold getReserveBySymbol; rewrite Hs;
              vm_compute; reflexivity
            | intros s Hs; unfold getReserveByCoinType; rewrite Hs;
              vm_compute; reflexivity
            | vm_compute; reflexivity ]
          | ]).
  contradiction.
Qed.

Lemma reserve_lookup_finds_entry_witness :
  getReserveBySymbol (js "usdc")
  = Some {| mr_coinType :=
              js "0xdba34672e30cb065b1f93e3ab55318768fd6fef66c15942c9f7cb846e2f900e7::usdc::USDC";
            mr_decimals := 6; mr_symbol := js "USDC" |}.
Proof.
  apply (proj1 (reserve_lookup_finds_entry
                  {| mr_coinType :=
                       js "0xdba34672e30cb065b1f93e3ab55318768fd6fef66c15942c9f7cb846e2f900e7::usdc::USDC";
                     mr_decimals := 6; mr_symbol := js "USDC" |}
                  ltac:(vm_compute; tauto))).
  reflexivity.
Defined.
